(** * Address lookup widget: search, normalisation and ranking pipeline

    A shallow embedding of the two variants of the [AddressAutocomplete]
    React component:

    - [src/components/Autocomplete.js], the India variant, whose ranking is
      biased towards candidates whose city contains the query;
    - [unnamed/part_000], the worldwide variant, whose ranking is by
      importance alone.

    The file has four layers: the JavaScript built-ins the component calls
    ([JS]), the address normaliser and the ranker ([Normalizer], [Ranker]),
    the debouncer ([Debounce]) and the component itself as a transition
    system over its React state, its timers and its outstanding requests
    ([Widget]). *)

From Stdlib Require Import List String Ascii Bool Arith ZArith QArith Lia.
From Stdlib Require Import Permutation Sorted.
Import ListNotations.

Close Scope Q_scope.
Open Scope string_scope.
Open Scope list_scope.
Open Scope nat_scope.

(** ** JavaScript built-ins *)

Module JS.

(** *** Numbers

    A JavaScript number is [NaN], an infinity or a finite value. Finite
    values are kept as exact rationals: the component only compares numbers
    and subtracts them to take the sign of the difference, and on binary64
    the difference of two finite numbers has the sign of the exact
    difference. *)
Inductive number : Type :=
| NaN
| Infinity (negative : bool)
| Finite (q : Q).

Definition zero : number := Finite (0 # 1).

(** [x - y] *)
Definition sub (x y : number) : number :=
  match x, y with
  | NaN, _ | _, NaN => NaN
  | Infinity s, Infinity s' => if Bool.eqb s s' then NaN else Infinity s
  | Infinity s, Finite _ => Infinity s
  | Finite _, Infinity s => Infinity (negb s)
  | Finite a, Finite b => Finite (Qminus a b)
  end.

(** [x < 0] *)
Definition lt0 (x : number) : bool :=
  match x with
  | NaN => false
  | Infinity s => s
  | Finite q => (Qnum q <? 0)%Z
  end.

(** [Number.isFinite(x)] *)
Definition isFinite (x : number) : bool :=
  match x with
  | Finite _ => true
  | _ => false
  end.

(** ToBoolean on a number: [NaN] and zero are falsy. *)
Definition truthy_number (x : number) : bool :=
  match x with
  | NaN => false
  | Infinity _ => true
  | Finite q => negb (Qnum q =? 0)%Z
  end.

(** [x || d] for numbers. *)
Definition or_number (x d : number) : number :=
  if truthy_number x then x else d.

(** *** Strings

    Strings are sequences of one-byte code units; [toLowerCase] acts on the
    ASCII letters and white space is the ASCII white space plus the
    no-break space. *)

Definition is_whitespace (c : ascii) : bool :=
  let n := nat_of_ascii c in
  ((9 <=? n) && (n <=? 13)) || (n =? 32) || (n =? 160).

Definition is_digit (c : ascii) : bool :=
  let n := nat_of_ascii c in (48 <=? n) && (n <=? 57).

Definition digit_value (c : ascii) : Z := Z.of_nat (nat_of_ascii c - 48).

Fixpoint trimStart (s : string) : string :=
  match s with
  | String c s' => if is_whitespace c then trimStart s' else s
  | EmptyString => EmptyString
  end.

Fixpoint drop_whitespace (l : list ascii) : list ascii :=
  match l with
  | c :: l' => if is_whitespace c then drop_whitespace l' else l
  | [] => []
  end.

Definition trimEnd (s : string) : string :=
  string_of_list_ascii (rev (drop_whitespace (rev (list_ascii_of_string s)))).

(** [s.trim()] *)
Definition trim (s : string) : string := trimEnd (trimStart s).

Definition lower_char (c : ascii) : ascii :=
  let n := nat_of_ascii c in
  if (65 <=? n) && (n <=? 90) then ascii_of_nat (n + 32) else c.

(** [s.toLowerCase()] *)
Fixpoint toLowerCase (s : string) : string :=
  match s with
  | String c s' => String (lower_char c) (toLowerCase s')
  | EmptyString => EmptyString
  end.

(** [s.includes(sub)] *)
Fixpoint includes (s sub : string) : bool :=
  String.prefix sub s ||
  match s with
  | String _ s' => includes s' sub
  | EmptyString => false
  end.

(** ToBoolean on a string. *)
Definition truthy_string (s : string) : bool :=
  match s with
  | EmptyString => false
  | String _ _ => true
  end.

(** ToBoolean on an optional string property: [undefined] and the empty
    string are falsy. *)
Definition truthy (v : option string) : bool :=
  match v with
  | Some s => truthy_string s
  | None => false
  end.

(** [a || b] on optional string properties. *)
Definition or_else (a b : option string) : option string :=
  if truthy a then a else b.

(** [a || d] where [d] is a string literal. *)
Definition or_string (a : option string) (d : string) : string :=
  match a with
  | Some s => if truthy_string s then s else d
  | None => d
  end.

(** [a !== b] on optional string properties. *)
Definition strict_neq (a b : option string) : bool :=
  match a, b with
  | Some x, Some y => negb (String.eqb x y)
  | None, None => false
  | _, _ => true
  end.

(** [parts.join(sep)] *)
Definition join (sep : string) (parts : list string) : string :=
  String.concat sep parts.

(** *** parseFloat

    The longest prefix of the trimmed string that is a StrDecimalLiteral:
    an optional sign, then [Infinity], or digits with an optional fraction
    and an optional exponent. No such prefix gives [NaN]. A value at or
    beyond the binary64 overflow threshold is an infinity. *)

Fixpoint read_digits (acc : Z) (count : nat) (s : string) : Z * nat * string :=
  match s with
  | String c s' =>
      if is_digit c then read_digits (10 * acc + digit_value c)%Z (S count) s'
      else (acc, count, s)
  | EmptyString => (acc, count, s)
  end.

Definition read_sign (s : string) : bool * string :=
  match s with
  | String "-" s' => (true, s')
  | String "+" s' => (false, s')
  | _ => (false, s)
  end.

(** The exponent part [e[+-]digits], when there is one. *)
Definition read_exponent (s : string) : Z :=
  match s with
  | String c s' =>
      if Ascii.eqb c "e" || Ascii.eqb c "E" then
        let '(neg, s'') := read_sign s' in
        let '(e, count, _) := read_digits 0 0 s'' in
        match count with
        | O => 0%Z
        | S _ => if neg then (- e)%Z else e
        end
      else 0%Z
  | EmptyString => 0%Z
  end.

(** [mantissa * 10 ^ exponent] *)
Definition decimal (mantissa exponent : Z) : Q :=
  if (0 <=? exponent)%Z then Qmake (mantissa * 10 ^ exponent) 1
  else Qmake mantissa (Z.to_pos (10 ^ (- exponent))).

(** Magnitudes from [2^1024 - 2^970] on round to an infinity. *)
Definition overflow_threshold : Q := Qmake (2 ^ 1024 - 2 ^ 970) 1.

Definition round_number (negative : bool) (magnitude : Q) : number :=
  if Qle_bool overflow_threshold magnitude then Infinity negative
  else Finite (if negative then Qopp magnitude else magnitude).

Definition parseFloat (s : string) : number :=
  let '(neg, body) := read_sign (trimStart s) in
  if String.prefix "Infinity" body then Infinity neg
  else
    let '(int_part, int_count, rest) := read_digits 0 0 body in
    let '(mantissa, frac_count, rest') :=
      match rest with
      | String "." after => read_digits int_part 0 after
      | _ => (int_part, O, rest)
      end in
    match int_count + frac_count with
    | O => NaN
    | S _ =>
        round_number neg
          (decimal mantissa (read_exponent rest' - Z.of_nat frac_count))
    end.

(** *** Array.prototype.sort

    ECMAScript asks for a stable sort and fixes the result only when the
    comparison function is consistent; otherwise the order is left to the
    engine. The model is that of V8 (Chrome, Node.js), which sorts every
    array shorter than 64 elements as one run; the component asks the
    provider for ten candidates at most. [countAndMakeRun] takes the longest
    prefix that is non-descending or strictly descending (reversing it in
    the second case), and [binaryInsertionSort] inserts the remaining
    elements one by one at the position found by binary search. The
    comparison function is always called with the later element first. A
    comparison result of [NaN] is read as [+0], so only the test
    [order < 0] matters. With a consistent comparison function the result is
    the stable sorted order that every engine gives. *)

Section Sort.
Context {A : Type}.
Variable comparefn : A -> A -> number.

(** [order < 0] for [order = comparefn x y] *)
Definition precedes (x y : A) : bool := lt0 (comparefn x y).

(** The loop of CountAndMakeRun: the run goes on while the order of the
    current element against the previous one agrees with the direction. *)
Fixpoint extend_run (isDescending : bool) (previousElement : A)
    (rest : list A) : list A * list A :=
  match rest with
  | [] => ([], [])
  | currentElement :: rest' =>
      if Bool.eqb (precedes currentElement previousElement) isDescending
      then
        let '(run, remaining) := extend_run isDescending currentElement rest' in
        (currentElement :: run, remaining)
      else ([], rest)
  end.

Definition countAndMakeRun (workArray : list A) : list A * list A :=
  match workArray with
  | elementHigh :: elementLow :: rest =>
      let isDescending := precedes elementLow elementHigh in
      let '(run, remaining) := extend_run isDescending elementLow rest in
      let whole := elementHigh :: elementLow :: run in
      (if isDescending then rev whole else whole, remaining)
  | _ => (workArray, [])
  end.

(** The binary search of BinaryInsertionSort for [pivot] in
    [workArray[left..right)]. The interval shrinks at every step, so
    [right - left] steps are always enough. *)
Fixpoint find_insertion_point (steps : nat) (pivot : A) (workArray : list A)
    (left right : nat) : nat :=
  match steps with
  | O => left
  | S steps' =>
      if left <? right then
        let mid := left + Nat.div2 (right - left) in
        if precedes pivot (nth mid workArray pivot)
        then find_insertion_point steps' pivot workArray left mid
        else find_insertion_point steps' pivot workArray (mid + 1) right
      else left
  end.

(** Shifting [workArray[left..)] up by one and storing [pivot] at [left]. *)
Definition insert_at (left : nat) (pivot : A) (workArray : list A) : list A :=
  firstn left workArray ++ pivot :: skipn left workArray.

Definition insert_pivot (sorted : list A) (pivot : A) : list A :=
  let start := List.length sorted in
  insert_at (find_insertion_point start pivot sorted 0 start) pivot sorted.

Definition binaryInsertionSort (run remaining : list A) : list A :=
  fold_left insert_pivot remaining run.

(** [array.sort(comparefn)] *)
Definition sort (array : list A) : list A :=
  let '(run, remaining) := countAndMakeRun array in
  binaryInsertionSort run remaining.

(** [a] may stand before [b]: [b] does not have to come first. *)
Definition in_order (a b : A) : Prop := precedes b a = false.

(** [b] has to come before [a]. *)
Definition out_of_order (a b : A) : Prop := precedes b a = true.

Definition ordered (l : list A) : Prop := StronglySorted in_order l.

End Sort.

End JS.

(** ** The address normaliser *)

(** The two variants of the component. *)
Inductive variant : Type :=
| India      (* src/components/Autocomplete.js *)
| Worldwide. (* unnamed/part_000 *)

Module Normalizer.
Import JS.

(** The [address] object of a provider record; every property is optional. *)
Record RawAddress : Type := {
  raw_house_number : option string;
  raw_road : option string;
  raw_neighbourhood : option string;
  raw_suburb : option string;
  raw_city_district : option string;
  raw_city : option string;
  raw_town : option string;
  raw_village : option string;
  raw_state_district : option string;
  raw_state : option string;
  raw_country : option string;
  raw_country_code : option string;
  raw_postcode : option string
}.

(** [{}] *)
Definition empty_address : RawAddress :=
  {| raw_house_number := None; raw_road := None; raw_neighbourhood := None;
     raw_suburb := None; raw_city_district := None; raw_city := None;
     raw_town := None; raw_village := None; raw_state_district := None;
     raw_state := None; raw_country := None; raw_country_code := None;
     raw_postcode := None |}.

(** One element of the provider's JSON array. The provider gives
    [display_name], [lat] and [lon] as strings in every record; the other
    properties may be missing. *)
Record RawCandidate : Type := {
  raw_place_id : option Z;
  raw_display_name : string;
  raw_lat : string;
  raw_lon : string;
  raw_type : option string;
  raw_class : option string;
  raw_importance : option number;
  raw_address : option RawAddress
}.

(** [item.place_id || `location_${index}`] is a number or a string. *)
Inductive identifier : Type :=
| PlaceId (n : Z)
| Synthetic (s : string).

(** The [address] object of a suggestion. The India variant builds it
    without the [country_code] property, which then reads as [undefined]. *)
Record Address : Type := {
  house_number : option string;
  road : option string;
  neighbourhood : option string;
  suburb : option string;
  city_district : option string;
  city : option string;
  state_district : option string;
  state : option string;
  country : option string;
  country_code : option string;
  postcode : option string
}.

(** A suggestion, the canonical Location. *)
Record Location : Type := {
  id : identifier;
  display_name : string;
  clean_display_name : string;
  lat : number;
  lon : number;
  type : string;
  class : string;
  importance : number;
  address : Address
}.

(** [if (v) parts.push(v)] *)
Definition push_if (v : option string) (parts : list string) : list string :=
  match v with
  | Some s => if truthy_string s then parts ++ [s] else parts
  | None => parts
  end.

(** The decimal digits of an array index. *)
Fixpoint digits_of (fuel n : nat) (acc : string) : string :=
  match fuel with
  | O => acc
  | S fuel' =>
      let acc' := String (ascii_of_nat (48 + n mod 10)) acc in
      match n / 10 with
      | O => acc'
      | S _ as n' => digits_of fuel' n' acc'
      end
  end.

Definition index_to_string (n : nat) : string := digits_of (S n) n "".

(** The address parts collected for the label, in the order of the pushes. *)
Definition address_parts (v : variant) (a : RawAddress) : list string :=
  let parts := [] in
  let parts := push_if (raw_house_number a) parts in
  let parts := push_if (raw_road a) parts in
  let parts := push_if (raw_neighbourhood a) parts in
  let parts := push_if (raw_suburb a) parts in
  let parts := push_if (raw_city_district a) parts in
  let parts :=
    push_if (or_else (or_else (raw_city a) (raw_town a)) (raw_village a)) parts in
  let parts :=
    if strict_neq (raw_state_district a) (or_else (raw_city a) (raw_town a))
    then push_if (raw_state_district a) parts
    else parts in
  let parts := push_if (raw_state a) parts in
  match v with
  | India =>
      match raw_postcode a with
      | Some p => if truthy_string p then parts ++ [("PIN: " ++ p)%string] else parts
      | None => parts
      end
  | Worldwide =>
      let parts := push_if (raw_country a) parts in
      push_if (raw_postcode a) parts
  end.

(** [item.address || {}] *)
Definition address_of (item : RawCandidate) : RawAddress :=
  match raw_address item with
  | Some a => a
  | None => empty_address
  end.

(** The callback of [data.map((item, index) => ...)]. *)
Definition format (v : variant) (item : RawCandidate) (index : nat) : Location :=
  let a := address_of item in
  let parts := address_parts v a in
  let cleanDisplayName :=
    if 0 <? List.length parts then join ", " parts else raw_display_name item in
  {| id := match raw_place_id item with
           | Some n => if (n =? 0)%Z
                       then Synthetic ("location_" ++ index_to_string index)%string
                       else PlaceId n
           | None => Synthetic ("location_" ++ index_to_string index)%string
           end;
     display_name := raw_display_name item;
     clean_display_name := cleanDisplayName;
     lat := parseFloat (raw_lat item);
     lon := parseFloat (raw_lon item);
     type := or_string (raw_type item) "location";
     class := or_string (raw_class item) "";
     importance := match raw_importance item with
                   | Some x => or_number x zero
                   | None => zero
                   end;
     address :=
       {| house_number := raw_house_number a;
          road := raw_road a;
          neighbourhood := raw_neighbourhood a;
          suburb := raw_suburb a;
          city_district := raw_city_district a;
          city := or_else (or_else (raw_city a) (raw_town a)) (raw_village a);
          state_district := raw_state_district a;
          state := raw_state a;
          country := match v with
                     | India => Some (or_string (raw_country a) "India")
                     | Worldwide => raw_country a
                     end;
          country_code := match v with
                          | India => None
                          | Worldwide => raw_country_code a
                          end;
          postcode := raw_postcode a |} |}.

(** [data.map(callback)]: the callback on every element with its index. *)
Fixpoint map_indexed {X Y : Type} (f : X -> nat -> Y) (index : nat) (l : list X)
    : list Y :=
  match l with
  | [] => []
  | x :: l' => f x index :: map_indexed f (S index) l'
  end.

Definition formattedSuggestions (v : variant) (data : list RawCandidate)
    : list Location :=
  map_indexed (format v) 0 data.

End Normalizer.

(** ** The ranker *)

Module Ranker.
Import JS Normalizer.

(** The comparison function of the India variant. *)
Definition compare_locality (searchQuery : string) (a b : Location) : number :=
  let queryLower := toLowerCase searchQuery in
  let aCity := toLowerCase (or_string (city (address a)) "") in
  let bCity := toLowerCase (or_string (city (address b)) "") in
  if includes aCity queryLower then Finite (-1 # 1)
  else if includes bCity queryLower then Finite (1 # 1)
  else sub (or_number (importance b) zero) (or_number (importance a) zero).

(** The comparison function of the worldwide variant. *)
Definition compare_importance (a b : Location) : number :=
  sub (or_number (importance b) zero) (or_number (importance a) zero).

Definition comparefn (v : variant) (searchQuery : string)
    : Location -> Location -> number :=
  match v with
  | India => compare_locality searchQuery
  | Worldwide => compare_importance
  end.

(** [formattedSuggestions.sort(comparefn)] *)
Definition rank (v : variant) (locations : list Location) (searchQuery : string)
    : list Location :=
  sort (comparefn v searchQuery) locations.

End Ranker.

(** ** The debouncer

    [debounce(func, wait)] returns a closure over one variable, [timeout],
    that holds the id of the timer set by the latest call. The browser's
    timer table and clock are part of the model: time is counted in the
    units of [setTimeout] and a timer runs once the clock has reached the
    time it is due. *)

Module Debounce.

Section Timers.
Context {Args : Type}.

(** A timer set by [setTimeout(later, wait)]; [later] captures the
    arguments of the call that set it. *)
Record timer : Type := {
  timer_id : nat;
  due : nat;
  captured : Args
}.

Record env : Type := {
  now : nat;
  next_id : nat;
  pending : list timer;
  timeout : option nat   (* [let timeout;] of the closure *)
}.

Definition initial : env :=
  {| now := 0; next_id := 1; pending := []; timeout := None |}.

(** [clearTimeout(id)]; an id that is [undefined] or no longer pending
    clears nothing. *)
Definition clearTimeout (id : option nat) (e : env) : env :=
  match id with
  | Some n =>
      {| now := now e; next_id := next_id e;
         pending := filter (fun tm => negb (timer_id tm =? n)) (pending e);
         timeout := timeout e |}
  | None => e
  end.

(** [timeout = setTimeout(later, wait)] *)
Definition setTimeout (args : Args) (wait : nat) (e : env) : env :=
  {| now := now e; next_id := S (next_id e);
     pending := pending e ++
       [{| timer_id := next_id e; due := now e + wait; captured := args |}];
     timeout := Some (next_id e) |}.

(** [executedFunction(...args)] *)
Definition executedFunction (wait : nat) (args : Args) (e : env) : env :=
  setTimeout args wait (clearTimeout (timeout e) e).

(** The pending timer that is due first; among equals the one set first. *)
Fixpoint earliest (l : list timer) : option timer :=
  match l with
  | [] => None
  | tm :: l' =>
      match earliest l' with
      | Some tm' => if due tm' <? due tm then Some tm' else Some tm
      | None => Some tm
      end
  end.

Definition next_due (t : nat) (e : env) : option timer :=
  match earliest (pending e) with
  | Some tm => if due tm <=? t then Some tm else None
  | None => None
  end.

Section Host.
(** The wrapped operation acts on the state of its host. *)
Context {St : Type}.
Variable func : Args -> St -> St.

(** A timer fires: it leaves the table and [later] runs. *)
Definition fire (tm : timer) (w : env * St) : env * St :=
  let '(e, s) := w in
  let e1 :=
    {| now := Nat.max (now e) (due tm); next_id := next_id e;
       pending := filter (fun x => negb (timer_id x =? timer_id tm)) (pending e);
       timeout := timeout e |} in
  (clearTimeout (timeout e1) e1, func (captured tm) s).

(** The timers due by time [t] fire in order. No firing sets a timer,
    so one round per pending timer is enough. *)
Fixpoint run_timers (rounds : nat) (t : nat) (w : env * St) : env * St :=
  match rounds with
  | O => w
  | S rounds' =>
      match next_due t (fst w) with
      | Some tm => run_timers rounds' t (fire tm w)
      | None => w
      end
  end.

(** The clock reaches [t]. *)
Definition advance (t : nat) (w : env * St) : env * St :=
  let '(e, s) := run_timers (List.length (pending (fst w))) t w in
  ({| now := Nat.max (now e) t; next_id := next_id e;
      pending := pending e; timeout := timeout e |}, s).

(** A series of calls of the debounced function, each at its time. *)
Definition call (wait : nat) (w : env * St) (c : nat * Args) : env * St :=
  let '(e, s) := advance (fst c) w in
  (executedFunction wait (snd c) e, s).

Definition calls (wait : nat) (cs : list (nat * Args)) (w : env * St)
    : env * St :=
  fold_left (call wait) cs w.

End Host.

(** A host that records the invocations of the wrapped operation. *)
Definition record_call (args : Args) (log : list Args) : list Args :=
  log ++ [args].


End Timers.

Arguments timer : clear implicits.
Arguments env : clear implicits.

End Debounce.

(** ** The component *)

Module Widget.
Import JS Normalizer Ranker.

(** The React state of the component. *)
Record State : Type := {
  query : string;
  suggestions : list Location;
  loading : bool;
  selectedLocation : option Location;
  showSuggestions : bool;
  error : string
}.

Definition initial_state : State :=
  {| query := ""; suggestions := []; loading := false;
     selectedLocation := None; showSuggestions := false; error := "" |}.

(** How a [fetch] of the provider ends. *)
Inductive response : Type :=
| Rejected                            (* [fetch] rejects: no network *)
| NotOk (status : nat)                (* [response.ok] is false *)
| Malformed                           (* [response.json()] rejects *)
| Json (data : list RawCandidate).    (* the parsed array *)

(** What the component shares with its environment besides the timers: the
    state, the requests awaiting their response (oldest first, each with the
    [searchQuery] its continuation holds) and the provider calls issued so
    far. *)
Record Host : Type := {
  ui : State;
  in_flight : list string;
  issued : list string
}.

Definition World : Type := (Debounce.env string * Host)%type.

Definition initial_world : World :=
  (Debounce.initial,
   {| ui := initial_state; in_flight := []; issued := [] |}).

Definition set_ui (st : State) (h : Host) : Host :=
  {| ui := st; in_flight := in_flight h; issued := issued h |}.

(** The quiet period of [debounce(..., 400)]. *)
Definition quiet_period : nat := 400.

(** [searchAddresses] up to its first [await]. *)
Definition searchAddresses_start (searchQuery : string) (h : Host) : Host :=
  if String.length searchQuery <? 2 then
    set_ui {| query := query (ui h); suggestions := [];
              loading := loading (ui h);
              selectedLocation := selectedLocation (ui h);
              showSuggestions := false; error := error (ui h) |} h
  else
    {| ui := {| query := query (ui h); suggestions := suggestions (ui h);
                loading := true;
                selectedLocation := selectedLocation (ui h);
                showSuggestions := showSuggestions (ui h); error := "" |};
       in_flight := in_flight h ++ [searchQuery];
       issued := issued h ++ [searchQuery] |}.

(** [searchAddresses] from the response on: the [try] body, the [catch]
    and the [finally]. *)
Definition searchAddresses_resume (v : variant) (searchQuery : string)
    (r : response) (st : State) : State :=
  match r with
  | Json data =>
      if 0 <? List.length data then
        {| query := query st;
           suggestions := rank v (formattedSuggestions v data) searchQuery;
           loading := false; selectedLocation := selectedLocation st;
           showSuggestions := true; error := error st |}
      else
        {| query := query st; suggestions := []; loading := false;
           selectedLocation := selectedLocation st; showSuggestions := false;
           error := "No locations found. Try a different search term." |}
  | Rejected | NotOk _ | Malformed =>
      {| query := query st; suggestions := []; loading := false;
         selectedLocation := selectedLocation st; showSuggestions := false;
         error := "Failed to fetch locations. Please check your internet connection." |}
  end.

(** The effect on [query]. *)
Definition query_effect (w : World) : World :=
  let '(e, h) := w in
  let trimmed := trim (query (ui h)) in
  if truthy_string trimmed then
    (Debounce.executedFunction quiet_period trimmed e, h)
  else
    (e, set_ui {| query := query (ui h); suggestions := [];
                  loading := loading (ui h);
                  selectedLocation := selectedLocation (ui h);
                  showSuggestions := false; error := "" |} h).

(** A render after a handler: the effect runs when [query] has changed. *)
Definition render (previous : string) (w : World) : World :=
  if String.eqb (query (ui (snd w))) previous then w else query_effect w.

Definition handleSuggestionClick (suggestion : Location) (st : State) : State :=
  {| query := clean_display_name suggestion; suggestions := suggestions st;
     loading := loading st; selectedLocation := Some suggestion;
     showSuggestions := false; error := "" |}.

Definition handleInputChange (value : string) (st : State) : State :=
  if String.eqb value "" then
    {| query := value; suggestions := []; loading := loading st;
       selectedLocation := None; showSuggestions := false; error := "" |}
  else
    {| query := value; suggestions := suggestions st; loading := loading st;
       selectedLocation := selectedLocation st;
       showSuggestions := showSuggestions st; error := error st |}.

Definition handleInputFocus (st : State) : State :=
  if 0 <? List.length (suggestions st) then
    {| query := query st; suggestions := suggestions st; loading := loading st;
       selectedLocation := selectedLocation st; showSuggestions := true;
       error := error st |}
  else st.

(** The five state updates of [clearInput]. Its last statement,
    [inputRef.current?.focus()], is not modelled: whether the input has the
    keyboard focus is not part of the state. Through the focus handler that
    call can only put [showSuggestions] up for the render that precedes the
    effect on [query]; no other field depends on it. *)
Definition clearInput (st : State) : State :=
  {| query := ""; suggestions := []; loading := loading st;
     selectedLocation := None; showSuggestions := false; error := "" |}.

(** What happens to the component. *)
Inductive event : Type :=
| InputChange (value : string)
| SuggestionClick (suggestion : Location)
| ClearInput
| InputFocus
| Elapse (t : nat)                       (* the clock reaches [t] *)
| Settle (k : nat) (r : response).       (* the [k]-th request in flight ends *)

Definition handle (f : State -> State) (w : World) : World :=
  render (query (ui (snd w))) (fst w, set_ui (f (ui (snd w))) (snd w)).

Definition settle (v : variant) (k : nat) (r : response) (w : World) : World :=
  let '(e, h) := w in
  match nth_error (in_flight h) k with
  | Some searchQuery =>
      (e, {| ui := searchAddresses_resume v searchQuery r (ui h);
             in_flight := firstn k (in_flight h) ++ skipn (S k) (in_flight h);
             issued := issued h |})
  | None => w
  end.

Definition step (v : variant) (w : World) (ev : event) : World :=
  match ev with
  | InputChange value => handle (handleInputChange value) w
  | SuggestionClick suggestion => handle (handleSuggestionClick suggestion) w
  | ClearInput => handle clearInput w
  | InputFocus => handle handleInputFocus w
  | Elapse t => Debounce.advance searchAddresses_start t w
  | Settle k r => settle v k r w
  end.

Definition run (v : variant) (evs : list event) (w : World) : World :=
  fold_left (step v) evs w.

(** The Idle state of the specification. *)
Definition Idle (st : State) : Prop :=
  query st = "" /\ suggestions st = [] /\ selectedLocation st = None /\
  error st = "".

End Widget.

(** ** The specification's words *)

Module Spec.
Import JS Normalizer Ranker Widget.

(** A sub-field contributes itself when it is present and non-empty. *)
Definition present (v : option string) : list string :=
  match v with
  | Some s => if truthy_string s then [s] else []
  | None => []
  end.

(** The city: the first of city, town and village. *)
Definition chosen_city (a : RawAddress) : option string :=
  match present (raw_city a) ++ present (raw_town a) ++ present (raw_village a) with
  | c :: _ => Some c
  | [] => None
  end.

(** The state district, only if it differs from the chosen city. *)
Definition state_district_part (a : RawAddress) : list string :=
  if strict_neq (raw_state_district a) (chosen_city a)
  then present (raw_state_district a)
  else [].

(** The parts of the label in their fixed order. *)
Definition label_parts (a : RawAddress) : list string :=
  present (raw_house_number a) ++ present (raw_road a) ++
  present (raw_neighbourhood a) ++ present (raw_suburb a) ++
  present (raw_city_district a) ++ present (chosen_city a) ++
  state_district_part a ++ present (raw_state a) ++
  present (raw_country a) ++ present (raw_postcode a).

(** The parts of the India variant: no country, and the postal code behind
    the prefix [PIN: ]. *)
Definition label_parts_india (a : RawAddress) : list string :=
  present (raw_house_number a) ++ present (raw_road a) ++
  present (raw_neighbourhood a) ++ present (raw_suburb a) ++
  present (raw_city_district a) ++ present (chosen_city a) ++
  state_district_part a ++ present (raw_state a) ++
  map (fun p => ("PIN: " ++ p)%string) (present (raw_postcode a)).

(** The parts joined with [", "], or the raw label when there is none. *)
Definition label_of (parts : list string) (rawLabel : string) : string :=
  match parts with
  | [] => rawLabel
  | _ :: _ => join ", " parts
  end.

(** A raw candidate with a coordinate that does not parse to a finite
    number. *)
Definition unparsable (item : RawCandidate) : bool :=
  negb (isFinite (parseFloat (raw_lat item))) ||
  negb (isFinite (parseFloat (raw_lon item))).

(** The candidates that the response [r] to a search for [searchQuery]
    leaves in the state. *)
Definition result_of (v : variant) (searchQuery : string) (r : response)
    : list Location :=
  suggestions (searchAddresses_resume v searchQuery r initial_state).

(** The city of a Location contains the lower-cased query text, whatever
    the case of its letters. *)
Definition city_matches (searchQuery : string) (l : Location) : bool :=
  includes (toLowerCase (or_string (city (address l)) ""))
           (toLowerCase searchQuery).

(** [a] is at least as important as [b]. *)
Definition at_least_as_important (a b : Location) : Prop :=
  lt0 (sub (or_number (importance a) zero) (or_number (importance b) zero)) = false.

(** [b] is more important than [a]. *)
Definition more_important (b a : Location) : Prop :=
  lt0 (sub (or_number (importance a) zero) (or_number (importance b) zero)) = true.

(** The order of the locality-biased ranking in which importance counts
    among the candidates without a match only: [a] may stand before [b]
    when [a] matches, or when [b] does not match and is not more important
    than [a]. *)
Definition locality_order (searchQuery : string) (a b : Location) : Prop :=
  city_matches searchQuery a = true \/
  (city_matches searchQuery b = false /\ at_least_as_important a b).

(** The steps of a strictly descending run under the comparison function
    of the India variant: to a match, or between two candidates without a
    match to the more important one. *)
Definition locality_run (searchQuery : string) (a b : Location) : Prop :=
  city_matches searchQuery b = true \/
  (city_matches searchQuery a = false /\ city_matches searchQuery b = false /\
   more_important b a).

(** A list in descending order of importance. *)
Fixpoint descending (l : list number) : bool :=
  match l with
  | x :: ((y :: _) as l') => negb (lt0 (sub x y)) && descending l'
  | _ => true
  end.

End Spec.

(** ** Sample provider records *)

Module Sample.
Import JS Normalizer Widget.

(** [{road: "Main St", city: city, country: "X"}] *)
Definition main_street (city : string) : RawAddress :=
  {| raw_house_number := None; raw_road := Some "Main St";
     raw_neighbourhood := None; raw_suburb := None; raw_city_district := None;
     raw_city := Some city; raw_town := None; raw_village := None;
     raw_state_district := None; raw_state := None; raw_country := Some "X";
     raw_country_code := None; raw_postcode := None |}.

Definition candidate (city lat : string) (importance : Q) : RawCandidate :=
  {| raw_place_id := None; raw_display_name := city; raw_lat := lat;
     raw_lon := "77.2"; raw_type := None; raw_class := None;
     raw_importance := Some (Finite importance);
     raw_address := Some (main_street city) |}.

Definition springfield : RawCandidate := candidate "Springfield" "28.6" (5 # 10).
Definition sparta : RawCandidate := candidate "Sparta" "28.7" (2 # 10).
Definition nowhere : RawCandidate := candidate "Nowhere" "n/a" (1 # 10).

(** Three candidates of the same city with importance 0.1, 0.9 and 0.5. *)
Definition three_springfields : list RawCandidate :=
  [candidate "Springfield" "28.6" (1 # 10);
   candidate "Springfield" "28.6" (9 # 10);
   candidate "Springfield" "28.6" (5 # 10)].

(** Two candidates of the same city with importance 0.9 and 0.1. *)
Definition two_springfields : list RawCandidate :=
  [candidate "Springfield" "28.6" (9 # 10);
   candidate "Springfield" "28.6" (1 # 10)].

End Sample.

(** ** Further notions of the component's behaviour *)

Module Behaviour.
Import JS Normalizer Ranker Widget.

(** Neither of [x] and [y] has to come before the other. *)
Definition tied {A : Type} (comparefn : A -> A -> number) (x y : A) : bool :=
  negb (precedes comparefn x y) && negb (precedes comparefn y x).

(** Two Locations of the same importance. *)
Definition same_importance (a b : Location) : bool :=
  tied compare_importance a b.

(** The place identifiers of a response that are truthy. *)
Definition place_ids (data : list RawCandidate) : list Z :=
  flat_map (fun item =>
              match raw_place_id item with
              | Some n => if (n =? 0)%Z then [] else [n]
              | None => []
              end) data.

(** The provider record [item] with the place identifier [n]. *)
Definition with_place_id (n : Z) (item : RawCandidate) : RawCandidate :=
  {| raw_place_id := Some n; raw_display_name := raw_display_name item;
     raw_lat := raw_lat item; raw_lon := raw_lon item;
     raw_type := raw_type item; raw_class := raw_class item;
     raw_importance := raw_importance item; raw_address := raw_address item |}.

(** The worlds the mounted component can be in. *)
Inductive reachable (v : variant) : World -> Prop :=
| reachable_initial : reachable v initial_world
| reachable_step (w : World) (ev : event) :
    reachable v w -> reachable v (step v w ev).

(** No timer is pending, or one, and the closure variable holds its id. *)
Definition one_timer (e : Debounce.env string) : Prop :=
  Debounce.pending e = [] \/
  exists tm, Debounce.pending e = [tm] /\
             Debounce.timeout e = Some (Debounce.timer_id tm).

(** Every call comes at least [wait] after the one before it. *)
Fixpoint spaced {Args : Type} (wait : nat) (previous : nat)
    (cs : list (nat * Args)) : Prop :=
  match cs with
  | [] => True
  | c :: cs' => previous + wait <= fst c /\ spaced wait (fst c) cs'
  end.

(** The list of suggestions is rendered:
    [showSuggestions && suggestions.length > 0]. *)
Definition dropdown_visible (st : State) : bool :=
  showSuggestions st && (0 <? List.length (suggestions st)).

(** [handleClickOutside]: a mouse press whose target is inside the input
    ([in_input]) or inside the rendered list ([in_list]) or elsewhere.
    [suggestionsRef.current] is set while the list is rendered only. *)
Definition handleClickOutside (in_input in_list : bool) (st : State) : State :=
  if dropdown_visible st && negb in_input && negb in_list then
    {| query := query st; suggestions := suggestions st; loading := loading st;
       selectedLocation := selectedLocation st; showSuggestions := false;
       error := error st |}
  else st.

(** An address without any of the fields that the label is built from. *)
Definition no_label_field (v : variant) (a : RawAddress) : Prop :=
  truthy (raw_house_number a) = false /\ truthy (raw_road a) = false /\
  truthy (raw_neighbourhood a) = false /\ truthy (raw_suburb a) = false /\
  truthy (raw_city_district a) = false /\ truthy (raw_city a) = false /\
  truthy (raw_town a) = false /\ truthy (raw_village a) = false /\
  truthy (raw_state_district a) = false /\ truthy (raw_state a) = false /\
  truthy (raw_postcode a) = false /\
  match v with
  | India => True
  | Worldwide => truthy (raw_country a) = false
  end.

End Behaviour.

(** * Properties *)

(** ** The sort *)

Section SortFacts.
Import JS.
Context {A : Type}.
Variable comparefn : A -> A -> number.

Lemma extend_run_splits (d : bool) (rest : list A) :
  forall previous run remaining,
    extend_run comparefn d previous rest = (run, remaining) ->
    rest = run ++ remaining.
Proof.
  induction rest as [|x rest IH]; simpl; intros previous run remaining E.
  - now inversion E.
  - destruct (Bool.eqb (precedes comparefn x previous) d).
    + destruct (extend_run comparefn d x rest) as [run' remaining'] eqn:E'.
      inversion E; subst. simpl. f_equal. eauto.
    + now inversion E.
Qed.

Lemma countAndMakeRun_permutation (workArray run remaining : list A) :
  countAndMakeRun comparefn workArray = (run, remaining) ->
  Permutation (run ++ remaining) workArray.
Proof.
  destruct workArray as [|x0 [|x1 rest]]; simpl; intros E.
  - inversion E; subst. constructor.
  - inversion E; subst. apply Permutation_refl.
  - destruct (extend_run comparefn (precedes comparefn x1 x0) x1 rest)
      as [run' remaining'] eqn:E'.
    apply extend_run_splits in E'. injection E as Hrun Hremaining.
    subst run remaining rest.
    change (x0 :: x1 :: run' ++ remaining')
      with ((x0 :: x1 :: run') ++ remaining').
    apply Permutation_app_tail.
    destruct (precedes comparefn x1 x0).
    + apply Permutation_sym, Permutation_rev.
    + apply Permutation_refl.
Qed.

Lemma insert_at_permutation (k : nat) (pivot : A) (l : list A) :
  Permutation (insert_at k pivot l) (pivot :: l).
Proof.
  unfold insert_at. apply Permutation_sym.
  rewrite <- (firstn_skipn k l) at 1. apply Permutation_middle.
Qed.

Lemma binaryInsertionSort_permutation (remaining : list A) :
  forall run,
    Permutation (binaryInsertionSort comparefn run remaining) (run ++ remaining).
Proof.
  unfold binaryInsertionSort.
  induction remaining as [|x remaining IH]; simpl; intros run.
  - rewrite app_nil_r. apply Permutation_refl.
  - eapply Permutation_trans; [apply IH|].
    eapply Permutation_trans;
      [apply Permutation_app_tail, insert_at_permutation|].
    simpl. apply Permutation_middle.
Qed.

Lemma sort_permutation (array : list A) :
  Permutation (sort comparefn array) array.
Proof.
  unfold sort.
  destruct (countAndMakeRun comparefn array) as [run remaining] eqn:E.
  eapply Permutation_trans; [apply binaryInsertionSort_permutation|].
  now apply countAndMakeRun_permutation.
Qed.

Lemma sort_length (array : list A) :
  List.length (sort comparefn array) = List.length array.
Proof. apply Permutation_length, sort_permutation. Qed.

(** The binary search does not depend on the number of steps it is allowed,
    once that covers the interval. *)
Lemma find_insertion_point_steps (pivot : A) (workArray : list A) :
  forall steps steps' left right,
    right - left <= steps -> right - left <= steps' ->
    find_insertion_point comparefn steps pivot workArray left right =
    find_insertion_point comparefn steps' pivot workArray left right.
Proof.
  induction steps as [|steps IH]; intros [|steps'] left right H H'; simpl;
    try reflexivity.
  - destruct (left <? right) eqn:Hlt; [apply Nat.ltb_lt in Hlt; lia|reflexivity].
  - destruct (left <? right) eqn:Hlt; [apply Nat.ltb_lt in Hlt; lia|reflexivity].
  - destruct (left <? right) eqn:Hlt; [|reflexivity].
    apply Nat.ltb_lt in Hlt.
    assert (Hhalf : Nat.div2 (right - left) < right - left)
      by (apply Nat.lt_div2; lia).
    generalize dependent (Nat.div2 (right - left)). intros half Hhalf.
    destruct (precedes comparefn pivot (nth (left + half) workArray pivot));
      apply IH; lia.
Qed.

End SortFacts.

Section ListFacts.
Context {A : Type}.

Lemma StronglySorted_app_iff (R : A -> A -> Prop) (l1 l2 : list A) :
  StronglySorted R (l1 ++ l2) <->
  StronglySorted R l1 /\ StronglySorted R l2 /\
  Forall (fun a => Forall (R a) l2) l1.
Proof.
  induction l1 as [|x l1 IH]; simpl.
  - split.
    + intros H. repeat split; auto; constructor.
    + intros (_ & H & _). exact H.
  - split.
    + intros H. inversion H as [|? ? Hs Hf]; subst.
      apply IH in Hs. destruct Hs as (H1 & H2 & H3).
      apply Forall_app in Hf. destruct Hf as [Hf1 Hf2].
      repeat split; auto; constructor; auto.
    + intros (H1 & H2 & H3).
      inversion H1 as [|? ? Hs Hf]; subst.
      inversion H3 as [|? ? Hx Hrest]; subst.
      constructor.
      * apply IH. auto.
      * apply Forall_app. auto.
Qed.

Lemma skipn_cons_nth (l : list A) (d : A) :
  forall k, k < List.length l -> skipn k l = nth k l d :: skipn (S k) l.
Proof.
  induction l as [|x l IH]; simpl; intros k Hk; [lia|].
  destruct k as [|k]; [reflexivity|].
  simpl. apply IH. lia.
Qed.

Lemma firstn_snoc_nth (l : list A) (d : A) :
  forall k, k < List.length l -> firstn (S k) l = firstn k l ++ [nth k l d].
Proof.
  induction l as [|x l IH]; simpl; intros k Hk; [lia|].
  destruct k as [|k]; [reflexivity|].
  simpl. f_equal. apply IH. lia.
Qed.

Lemma nth_error_last (l : list A) (x : A) :
  nth_error (l ++ [x]) (List.length l) = Some x.
Proof. induction l; simpl; auto. Qed.

Lemma remove_last (l : list A) (x : A) :
  firstn (List.length l) (l ++ [x]) ++ skipn (S (List.length l)) (l ++ [x]) = l.
Proof. induction l; simpl in *; [reflexivity|now f_equal]. Qed.

Lemma last_cons (l : list A) :
  forall x d, last (x :: l) d = last l x.
Proof.
  induction l as [|y l IH]; intros x d; [reflexivity|].
  change (last (x :: y :: l) d) with (last (y :: l) d).
  rewrite (IH y d). symmetry. apply (IH y x).
Qed.

Lemma StronglySorted_firstn (R : A -> A -> Prop) (l : list A) (k : nat) :
  StronglySorted R l -> StronglySorted R (firstn k l).
Proof.
  intros H. rewrite <- (firstn_skipn k l) in H.
  now apply StronglySorted_app_iff in H.
Qed.

Lemma StronglySorted_skipn (R : A -> A -> Prop) (l : list A) (k : nat) :
  StronglySorted R l -> StronglySorted R (skipn k l).
Proof.
  intros H. rewrite <- (firstn_skipn k l) in H.
  now apply StronglySorted_app_iff in H.
Qed.

End ListFacts.

(** The order of the result. [before a b] reads: [a] may stand before [b];
    [after a b] reads: in a strictly descending run [b] may follow [a]. The
    hypotheses say how the answers of the comparison function relate to
    them; they hold for every consistent comparison function, and for some
    others. *)
Section SortOrder.
Import JS.
Context {A : Type}.
Variable comparefn : A -> A -> number.
Variables before after : A -> A -> Prop.

Hypothesis before_transitive :
  forall a b c, before a b -> before b c -> before a c.
Hypothesis after_transitive :
  forall a b c, after a b -> after b c -> after a c.
Hypothesis not_precedes_before :
  forall a b, precedes comparefn b a = false -> before a b.
Hypothesis precedes_after :
  forall a b, precedes comparefn b a = true -> after a b.
Hypothesis after_before :
  forall a b, after a b -> before b a.
Hypothesis precedes_upwards :
  forall p x y,
    precedes comparefn p x = true -> before x y -> precedes comparefn p y = true.
Hypothesis precedes_downwards :
  forall p x y,
    precedes comparefn p x = false -> before y x -> precedes comparefn p y = false.

Lemma HdRel_weaken (R R' : A -> A -> Prop) (a : A) (l : list A) :
  (forall x y, R x y -> R' x y) -> HdRel R a l -> HdRel R' a l.
Proof. intros H [|b l' Hab]; constructor; auto. Qed.

Lemma Sorted_weaken (R R' : A -> A -> Prop) (l : list A) :
  (forall x y, R x y -> R' x y) -> Sorted R l -> Sorted R' l.
Proof.
  intros H. induction 1 as [|a l Hs IH Hd]; constructor; auto.
  now apply HdRel_weaken with R.
Qed.

Lemma extend_run_chain (d : bool) (rest : list A) :
  forall previous run remaining,
    extend_run comparefn d previous rest = (run, remaining) ->
    Sorted (fun a b => precedes comparefn b a = d) (previous :: run).
Proof.
  induction rest as [|x rest IH]; simpl; intros previous run remaining E.
  - inversion E; subst. repeat constructor.
  - destruct (Bool.eqb (precedes comparefn x previous) d) eqn:Hd.
    + destruct (extend_run comparefn d x rest) as [run' remaining'] eqn:E'.
      injection E as <- <-.
      constructor; [eapply IH; eauto|].
      constructor. now apply Bool.eqb_prop.
    + inversion E; subst. repeat constructor.
Qed.

Lemma descending_reversed (l : list A) :
  StronglySorted after l -> StronglySorted before (rev l).
Proof.
  induction 1 as [|a l Hs IH Hf]; simpl; [constructor|].
  apply StronglySorted_app_iff. repeat split; auto.
  - repeat constructor.
  - rewrite Forall_forall in *. intros b Hb. constructor; [|constructor].
    apply in_rev in Hb. apply after_before. now apply Hf.
Qed.

Lemma countAndMakeRun_sorted (workArray run remaining : list A) :
  countAndMakeRun comparefn workArray = (run, remaining) ->
  StronglySorted before run.
Proof.
  destruct workArray as [|x0 [|x1 rest]]; cbn [countAndMakeRun]; intros E.
  - inversion E; subst. constructor.
  - inversion E; subst. repeat constructor.
  - destruct (extend_run comparefn (precedes comparefn x1 x0) x1 rest)
      as [run' remaining'] eqn:E'.
    apply extend_run_chain in E'. injection E as <- <-.
    destruct (precedes comparefn x1 x0) eqn:Hd.
    + apply (descending_reversed (x0 :: x1 :: run')).
      apply Sorted_StronglySorted; [exact after_transitive|].
      apply Sorted_weaken with (fun a b => precedes comparefn b a = true);
        [exact precedes_after|].
      constructor; [exact E'|]. constructor. exact Hd.
    + apply Sorted_StronglySorted; [exact before_transitive|].
      apply Sorted_weaken with (fun a b => precedes comparefn b a = false);
        [exact not_precedes_before|].
      constructor; [exact E'|]. constructor. exact Hd.
Qed.

(** The binary search ends between the elements that [pivot] does not
    precede and those that it precedes. *)
Lemma find_insertion_point_spec (pivot : A) (workArray : list A) :
  StronglySorted before workArray ->
  forall steps left right,
    right - left <= steps -> left <= right ->
    right <= List.length workArray ->
    Forall (fun e => precedes comparefn pivot e = false) (firstn left workArray) ->
    Forall (fun e => precedes comparefn pivot e = true) (skipn right workArray) ->
    let k := find_insertion_point comparefn steps pivot workArray left right in
    Forall (fun e => precedes comparefn pivot e = false) (firstn k workArray) /\
    Forall (fun e => precedes comparefn pivot e = true) (skipn k workArray).
Proof.
  intros Hord. induction steps as [|steps IH]; intros left right Hsteps Hlr Hlen Hl Hr.
  - simpl. replace right with left in Hr by lia. auto.
  - simpl. destruct (left <? right) eqn:Hlt.
    + apply Nat.ltb_lt in Hlt.
      assert (Hhalf : Nat.div2 (right - left) < right - left)
        by (apply Nat.lt_div2; lia).
      generalize dependent (Nat.div2 (right - left)). intros half Hhalf.
      remember (left + half) as mid eqn:Emid.
      assert (Hmid : mid < List.length workArray) by lia.
      assert (Hbounds : left <= mid < right /\ mid - left <= steps /\
                        right - (mid + 1) <= steps) by lia.
      clear Emid Hhalf half.
      destruct (precedes comparefn pivot (nth mid workArray pivot)) eqn:Hp.
      * apply IH; try lia; auto.
        rewrite (skipn_cons_nth workArray pivot mid Hmid).
        constructor; [exact Hp|].
        pose proof (StronglySorted_skipn _ _ mid Hord) as Hs.
        rewrite (skipn_cons_nth workArray pivot mid Hmid) in Hs.
        inversion Hs as [|? ? _ Hf]; subst.
        rewrite Forall_forall in *. intros e He.
        apply precedes_upwards with (nth mid workArray pivot); auto.
      * apply IH; try lia; auto.
        replace (mid + 1) with (S mid) by lia.
        rewrite (firstn_snoc_nth workArray pivot mid Hmid).
        pose proof (StronglySorted_firstn _ _ (S mid) Hord) as Hs.
        rewrite (firstn_snoc_nth workArray pivot mid Hmid) in Hs.
        apply StronglySorted_app_iff in Hs. destruct Hs as (_ & _ & Hf).
        apply Forall_app. split; [|repeat constructor; exact Hp].
        rewrite Forall_forall in *. intros e He.
        specialize (Hf e He). inversion Hf as [|? ? He' _]; subst.
        now apply precedes_downwards with (nth mid workArray pivot).
    + apply Nat.ltb_ge in Hlt. replace right with left in Hr by lia. auto.
Qed.

Lemma insert_pivot_sorted (sorted : list A) (pivot : A) :
  StronglySorted before sorted ->
  StronglySorted before (insert_pivot comparefn sorted pivot).
Proof.
  intros Hord. unfold insert_pivot, insert_at.
  destruct (find_insertion_point_spec pivot sorted Hord
              (List.length sorted) 0 (List.length sorted)) as [Hl Hr];
    try lia.
  - constructor.
  - rewrite skipn_all. constructor.
  - set (k := find_insertion_point comparefn (List.length sorted) pivot sorted
                0 (List.length sorted)) in *.
    apply StronglySorted_app_iff.
    pose proof Hord as Hsplit.
    rewrite <- (firstn_skipn k sorted) in Hsplit.
    apply StronglySorted_app_iff in Hsplit.
    destruct Hsplit as (H1 & H2 & H3).
    repeat split; auto.
    + constructor; auto.
      rewrite Forall_forall in *. intros e He.
      apply after_before, precedes_after. now apply Hr.
    + rewrite Forall_forall in *. intros e He. constructor.
      * apply not_precedes_before. now apply Hl.
      * now apply H3.
Qed.

Lemma binaryInsertionSort_sorted (remaining : list A) :
  forall run,
    StronglySorted before run ->
    StronglySorted before (binaryInsertionSort comparefn run remaining).
Proof.
  unfold binaryInsertionSort.
  induction remaining as [|x remaining IH]; simpl; intros run Hrun; auto.
  apply IH. now apply insert_pivot_sorted.
Qed.

Lemma sort_sorted (array : list A) :
  StronglySorted before (sort comparefn array).
Proof.
  unfold sort.
  destruct (countAndMakeRun comparefn array) as [run remaining] eqn:E.
  apply binaryInsertionSort_sorted.
  now apply countAndMakeRun_sorted in E.
Qed.

End SortOrder.

(** With a comparison function that is asymmetric and negatively
    transitive (a strict weak order) the result is in order, and an array
    that is in order is left as it is. *)
Section ConsistentSort.
Import JS.
Context {A : Type}.
Variable comparefn : A -> A -> number.

Hypothesis precedes_asym :
  forall x y, precedes comparefn x y = true -> precedes comparefn y x = false.
Hypothesis precedes_negtrans :
  forall x y z,
    precedes comparefn x y = false -> precedes comparefn y z = false ->
    precedes comparefn x z = false.

Lemma precedes_before (x y z : A) :
  precedes comparefn x y = true -> precedes comparefn z y = false ->
  precedes comparefn x z = true.
Proof.
  intros Hxy Hzy.
  destruct (precedes comparefn x z) eqn:Hxz; [reflexivity|].
  rewrite (precedes_negtrans x z y Hxz Hzy) in Hxy. discriminate.
Qed.

Lemma precedes_trans (x y z : A) :
  precedes comparefn x y = true -> precedes comparefn y z = true ->
  precedes comparefn x z = true.
Proof.
  intros Hxy Hyz. apply precedes_before with y; auto.
Qed.

Lemma sort_ordered (array : list A) : ordered comparefn (sort comparefn array).
Proof.
  unfold ordered.
  apply sort_sorted with (after := out_of_order comparefn);
    unfold in_order, out_of_order; intros; eauto using precedes_trans, precedes_before.
Qed.

Lemma extend_run_ordered (rest : list A) :
  forall previous,
    ordered comparefn (previous :: rest) ->
    extend_run comparefn false previous rest = (rest, []).
Proof.
  induction rest as [|x rest IH]; simpl; intros previous Hord; [reflexivity|].
  inversion Hord as [|? ? Hs Hf]; subst.
  inversion Hf as [|? ? Hx _]; subst.
  unfold in_order in Hx. rewrite Hx. simpl.
  now rewrite IH.
Qed.

Lemma sort_ordered_fixpoint (array : list A) :
  ordered comparefn array -> sort comparefn array = array.
Proof.
  intros Hord. unfold sort.
  destruct array as [|x0 [|x1 rest]]; simpl; try reflexivity.
  inversion Hord as [|? ? Hs Hf]; subst.
  inversion Hf as [|? ? Hx _]; subst.
  unfold in_order in Hx. rewrite Hx.
  now rewrite (extend_run_ordered rest x1 Hs).
Qed.

Lemma sort_idempotent (array : list A) :
  sort comparefn (sort comparefn array) = sort comparefn array.
Proof. apply sort_ordered_fixpoint, sort_ordered. Qed.

End ConsistentSort.

(** ** Numbers and the comparison by importance *)

Section NumberFacts.
Import JS.

Lemma lt0_sub_finite (a b : Q) :
  lt0 (sub (Finite a) (Finite b)) = true <-> (a < b)%Q.
Proof.
  simpl. rewrite Z.ltb_lt. unfold Qlt. simpl.
  rewrite Z.mul_opp_l. lia.
Qed.

Lemma lt0_sub_finite_false (a b : Q) :
  lt0 (sub (Finite a) (Finite b)) = false <-> (b <= a)%Q.
Proof.
  simpl. rewrite Z.ltb_ge. unfold Qle. simpl.
  rewrite Z.mul_opp_l. lia.
Qed.

Lemma or_number_zero_not_NaN (x : number) : or_number x zero <> NaN.
Proof.
  unfold or_number, zero. destruct x as [|s|q]; simpl; try discriminate.
  destruct (negb (Qnum q =? 0)%Z); discriminate.
Qed.

Lemma lt0_sub_asym (x y : number) :
  x <> NaN -> y <> NaN ->
  lt0 (sub x y) = true -> lt0 (sub y x) = false.
Proof.
  destruct x as [|sx|a], y as [|sy|b]; try congruence; intros _ _.
  - destruct sx, sy; simpl; congruence.
  - simpl. intros ->. reflexivity.
  - simpl. destruct sy; simpl; congruence.
  - rewrite lt0_sub_finite, lt0_sub_finite_false. apply Qlt_le_weak.
Qed.

Lemma lt0_sub_negtrans (x y z : number) :
  x <> NaN -> y <> NaN -> z <> NaN ->
  lt0 (sub x y) = false -> lt0 (sub y z) = false -> lt0 (sub x z) = false.
Proof.
  destruct x as [|sx|a], y as [|sy|b], z as [|sz|c]; try congruence;
    intros _ _ _;
    try (destruct sx); try (destruct sy); try (destruct sz);
    simpl; try congruence.
  fold (sub (Finite a) (Finite b)) (sub (Finite b) (Finite c))
       (sub (Finite a) (Finite c)).
  change (lt0 (sub (Finite a) (Finite b)) = false ->
          lt0 (sub (Finite b) (Finite c)) = false ->
          lt0 (sub (Finite a) (Finite c)) = false).
  rewrite !lt0_sub_finite_false. intros Hba Hcb.
  now apply Qle_trans with b.
Qed.

End NumberFacts.

Section ImportanceOrder.
Import JS Normalizer Ranker.

Lemma compare_importance_asym (x y : Location) :
  precedes compare_importance x y = true ->
  precedes compare_importance y x = false.
Proof.
  unfold precedes, compare_importance.
  apply lt0_sub_asym; apply or_number_zero_not_NaN.
Qed.

Lemma compare_importance_negtrans (x y z : Location) :
  precedes compare_importance x y = false ->
  precedes compare_importance y z = false ->
  precedes compare_importance x z = false.
Proof.
  unfold precedes, compare_importance. intros Hxy Hyz.
  apply lt0_sub_negtrans with (or_number (importance y) zero);
    auto using or_number_zero_not_NaN.
Qed.

End ImportanceOrder.

(** ** The normaliser *)

Section NormalizerFacts.
Import JS Normalizer Spec.

Lemma push_if_present (v : option string) (parts : list string) :
  push_if v parts = parts ++ present v.
Proof.
  destruct v as [s|]; simpl; [|now rewrite app_nil_r].
  destruct (truthy_string s); [reflexivity|now rewrite app_nil_r].
Qed.

Lemma present_chosen_city (a : RawAddress) :
  present (or_else (or_else (raw_city a) (raw_town a)) (raw_village a)) =
  present (chosen_city a).
Proof.
  unfold chosen_city, or_else.
  destruct (raw_city a) as [[|c cs]|], (raw_town a) as [[|t ts]|],
    (raw_village a) as [[|w ws]|]; reflexivity.
Qed.

Lemma chosen_city_or_else (a : RawAddress) :
  truthy (or_else (raw_city a) (raw_town a)) = true ->
  chosen_city a = or_else (raw_city a) (raw_town a).
Proof.
  unfold chosen_city, or_else.
  destruct (raw_city a) as [[|c cs]|], (raw_town a) as [[|t ts]|];
    simpl; intros H; try discriminate; reflexivity.
Qed.

Lemma chosen_city_village (a : RawAddress) :
  truthy (or_else (raw_city a) (raw_town a)) = false ->
  chosen_city a = (if truthy (raw_village a) then raw_village a else None).
Proof.
  unfold chosen_city, or_else.
  destruct (raw_city a) as [[|c cs]|], (raw_town a) as [[|t ts]|];
    simpl; intros H; try discriminate;
    destruct (raw_village a) as [[|w ws]|]; reflexivity.
Qed.

Lemma strict_neq_falsy (d : ascii) (ds : string) (v : option string) :
  truthy v = false -> strict_neq (Some (String d ds)) v = true.
Proof. destruct v as [[|c cs]|]; simpl; intros H; try discriminate; reflexivity. Qed.

Lemma state_district_pushed (a : RawAddress) (parts : list string) :
  truthy (or_else (raw_city a) (raw_town a)) = true \/
  strict_neq (raw_state_district a) (raw_village a) = true \/
  truthy (raw_state_district a) = false ->
  (if strict_neq (raw_state_district a) (or_else (raw_city a) (raw_town a))
   then push_if (raw_state_district a) parts else parts) =
  parts ++ state_district_part a.
Proof.
  intros H. unfold state_district_part. rewrite push_if_present.
  destruct (truthy (or_else (raw_city a) (raw_town a))) eqn:Hct.
  - rewrite (chosen_city_or_else a Hct).
    destruct (strict_neq (raw_state_district a)
                (or_else (raw_city a) (raw_town a)));
      now rewrite ?app_nil_r.
  - rewrite (chosen_city_village a Hct).
    destruct (raw_state_district a) as [[|d ds]|] eqn:Hsd;
      try (cbn [present truthy_string];
           repeat match goal with
                  | |- context [if ?b then _ else _] => destruct b
                  end;
           now rewrite ?app_nil_r).
    rewrite (strict_neq_falsy d ds _ Hct).
    destruct H as [H|[H|H]]; try discriminate.
    destruct (truthy (raw_village a)); [now rewrite H|reflexivity].
Qed.

Lemma label_of_parts (parts : list string) (rawLabel : string) :
  (if 0 <? List.length parts then join ", " parts else rawLabel) =
  label_of parts rawLabel.
Proof. destruct parts; reflexivity. Qed.

Lemma map_indexed_length {X Y : Type} (f : X -> nat -> Y) (l : list X) :
  forall k, List.length (map_indexed f k l) = List.length l.
Proof. induction l; simpl; intros; [reflexivity|now rewrite IHl]. Qed.

Lemma map_indexed_nth_error {X Y : Type} (f : X -> nat -> Y) (l : list X) :
  forall k i x,
    nth_error l i = Some x ->
    nth_error (map_indexed f k l) i = Some (f x (k + i)).
Proof.
  induction l as [|y l IH]; intros k [|i] x E; simpl in *; try discriminate.
  - inversion E; subst. now rewrite Nat.add_0_r.
  - rewrite (IH (S k) i x E). f_equal. f_equal. lia.
Qed.

End NormalizerFacts.

(** C10: in the India variant the country of every Location is the
    provider's country when that is present and non-empty and the literal
    [India] otherwise, so it is never empty; the worldwide variant passes the
    provider's country on as it is, absent when the provider omits it. *)
Theorem india_country_defaults :
  forall (item : Normalizer.RawCandidate) (index : nat),
    let provided := Normalizer.raw_country (Normalizer.address_of item) in
    let india := Normalizer.country
                   (Normalizer.address (Normalizer.format India item index)) in
    let worldwide := Normalizer.country
                   (Normalizer.address (Normalizer.format Worldwide item index)) in
    JS.truthy india = true /\
    india = (if JS.truthy provided then provided else Some "India") /\
    worldwide = provided.
Proof.
  intros item index. simpl.
  destruct (Normalizer.raw_country (Normalizer.address_of item)) as [[|c cs]|];
    simpl; auto.
Qed.

(** C3, as the code has it: for a raw candidate that has a city or a town,
    or whose state district is absent or differs from its village, the
    worldwide variant builds the label from house number, road,
    neighbourhood, suburb, city district, city (first of city, town,
    village), state district (when it differs from the city), state, country
    and postal code, each only if present and non-empty, joined with a comma
    and a space; the India variant builds it from the same parts without the
    country and with the postal code behind the prefix [PIN: ]. Without any
    part the label is the raw label. *)
Theorem label_follows_precedence :
  forall (item : Normalizer.RawCandidate) (index : nat),
    let a := Normalizer.address_of item in
    JS.truthy (JS.or_else (Normalizer.raw_city a) (Normalizer.raw_town a)) = true \/
    JS.strict_neq (Normalizer.raw_state_district a) (Normalizer.raw_village a) = true \/
    JS.truthy (Normalizer.raw_state_district a) = false ->
    Normalizer.clean_display_name (Normalizer.format Worldwide item index) =
      Spec.label_of (Spec.label_parts a) (Normalizer.raw_display_name item) /\
    Normalizer.clean_display_name (Normalizer.format India item index) =
      Spec.label_of (Spec.label_parts_india a) (Normalizer.raw_display_name item).
Proof.
  intros item index a H.
  unfold Normalizer.format. fold a. cbn [Normalizer.clean_display_name].
  rewrite !label_of_parts.
  unfold Normalizer.address_parts, Spec.label_parts, Spec.label_parts_india.
  rewrite (state_district_pushed a _ H).
  rewrite !push_if_present, present_chosen_city.
  split; f_equal.
  - simpl. now rewrite <- !app_assoc.
  - destruct (Normalizer.raw_postcode a) as [[|p ps]|]; simpl;
      now rewrite <- ?app_assoc, ?app_nil_r.
Qed.

Lemma label_follows_precedence_witness :
  Normalizer.clean_display_name (Normalizer.format Worldwide Sample.springfield 0) =
    "Main St, Springfield, X" /\
  Normalizer.clean_display_name (Normalizer.format India Sample.springfield 0) =
    "Main St, Springfield".
Proof.
  apply (label_follows_precedence Sample.springfield 0).
  left. reflexivity.
Defined.

(** C3, as the specification states it, fails in the India variant: the
    candidate with road [Main St], city [Springfield] and country [X] gets
    the label [Main St, Springfield]. *)
Lemma india_label_omits_country :
  Normalizer.address_of Sample.springfield = Sample.main_street "Springfield" /\
  Normalizer.clean_display_name (Normalizer.format India Sample.springfield 0) <>
    "Main St, Springfield, X".
Proof. split; [reflexivity|discriminate]. Qed.

(** C2, as the code has it: a successful response with N raw candidates
    leaves exactly N Locations in the state, one for each raw candidate; the
    coordinates of each are what [parseFloat] makes of the provider's
    strings, finite or not, and no candidate is left out. *)
Theorem normalization_keeps_every_candidate :
  forall (v : variant) (searchQuery : string)
         (data : list Normalizer.RawCandidate) (st : Widget.State),
    let stored :=
      Widget.suggestions
        (Widget.searchAddresses_resume v searchQuery (Widget.Json data) st) in
    List.length stored = List.length data /\
    Permutation stored (Normalizer.formattedSuggestions v data) /\
    forall (i : nat) (item : Normalizer.RawCandidate),
      nth_error data i = Some item ->
      nth_error (Normalizer.formattedSuggestions v data) i =
        Some (Normalizer.format v item i) /\
      Normalizer.lat (Normalizer.format v item i) =
        JS.parseFloat (Normalizer.raw_lat item) /\
      Normalizer.lon (Normalizer.format v item i) =
        JS.parseFloat (Normalizer.raw_lon item).
Proof.
  intros v searchQuery data st stored.
  assert (Hperm : Permutation stored (Normalizer.formattedSuggestions v data)).
  { unfold stored. destruct data as [|item data].
    - apply Permutation_refl.
    - cbn [Widget.searchAddresses_resume List.length Nat.ltb Nat.leb
           Widget.suggestions].
      apply sort_permutation. }
  repeat split.
  - rewrite (Permutation_length Hperm).
    apply map_indexed_length.
  - exact Hperm.
  - now apply (map_indexed_nth_error (Normalizer.format v) data 0 i item).
Qed.

(** C2, as the specification states it, fails: of one raw candidate whose
    latitude does not parse, one Location is stored, and its latitude is
    [NaN]. *)
Lemma unparsable_candidate_is_kept :
  let data := [Sample.nowhere] in
  let stored :=
    Widget.suggestions
      (Widget.searchAddresses_resume India "no" (Widget.Json data)
         Widget.initial_state) in
  List.length (filter Spec.unparsable data) = 1 /\
  List.length stored <>
    List.length data - List.length (filter Spec.unparsable data) /\
  map Normalizer.lat stored = [JS.NaN].
Proof. vm_compute. repeat split; discriminate. Qed.

(** ** The ranker *)

Section LocalityOrder.
Import JS Normalizer Ranker Spec.
Variable searchQuery : string.

Lemma precedes_locality (x y : Location) :
  precedes (compare_locality searchQuery) x y =
    if city_matches searchQuery x then true
    else if city_matches searchQuery y then false
    else precedes compare_importance x y.
Proof.
  unfold precedes, compare_locality, city_matches, compare_importance.
  destruct (includes (toLowerCase (or_string (city (address x)) "")) _);
    [reflexivity|].
  destruct (includes (toLowerCase (or_string (city (address y)) "")) _);
    reflexivity.
Qed.

Lemma locality_order_transitive (a b c : Location) :
  locality_order searchQuery a b -> locality_order searchQuery b c ->
  locality_order searchQuery a c.
Proof.
  unfold locality_order, at_least_as_important.
  intros [Ha|[Hb Hab]] [Hb'|[Hc Hbc]]; auto; try congruence.
  right. split; [exact Hc|].
  exact (compare_importance_negtrans c b a Hbc Hab).
Qed.

Lemma locality_run_transitive (a b c : Location) :
  locality_run searchQuery a b -> locality_run searchQuery b c ->
  locality_run searchQuery a c.
Proof.
  unfold locality_run, more_important.
  intros [Hb|(Ha & Hb & Hab)] [Hc|(Hb' & Hc & Hbc)]; auto; try congruence.
  right. repeat split; auto.
  exact (precedes_trans compare_importance compare_importance_asym
           compare_importance_negtrans c b a Hbc Hab).
Qed.

Lemma locality_sorted (array : list Location) :
  StronglySorted (locality_order searchQuery)
    (sort (compare_locality searchQuery) array).
Proof.
  apply sort_sorted with (after := locality_run searchQuery).
  - exact locality_order_transitive.
  - exact locality_run_transitive.
  - intros a b. rewrite precedes_locality.
    unfold locality_order, at_least_as_important.
    destruct (city_matches searchQuery b); [discriminate|].
    destruct (city_matches searchQuery a); auto.
  - intros a b. rewrite precedes_locality.
    unfold locality_run, more_important.
    destruct (city_matches searchQuery b); [auto|].
    destruct (city_matches searchQuery a); [discriminate|auto].
  - unfold locality_run, locality_order, at_least_as_important, more_important.
    intros a b [Hb|(Ha & Hb & Hab)]; [auto|].
    right. split; [exact Ha|].
    exact (compare_importance_asym b a Hab).
  - intros p x y. rewrite !precedes_locality.
    unfold locality_order, at_least_as_important.
    destruct (city_matches searchQuery p); [reflexivity|].
    destruct (city_matches searchQuery x); [discriminate|].
    intros Hpx [Hx|[Hy Hxy]]; [discriminate|]. rewrite Hy.
    exact (precedes_before compare_importance compare_importance_negtrans
             p x y Hpx Hxy).
  - intros p x y. rewrite !precedes_locality.
    unfold locality_order, at_least_as_important.
    destruct (city_matches searchQuery p); [discriminate|].
    intros Hpx [Hy|[Hx Hyx]]; [now rewrite Hy|].
    rewrite Hx in Hpx.
    destruct (city_matches searchQuery y); [reflexivity|].
    exact (compare_importance_negtrans p x y Hpx Hyx).
Qed.

End LocalityOrder.

(** C4 fails on the code. The India variant does place every candidate
    whose city contains the query before every candidate whose city does
    not, and it orders the candidates without a match by descending
    importance; but among the candidates with a match importance is not
    consulted. With three candidates whose city contains the query, of
    importance 0.1, 0.9 and 0.5 in the provider's order, the stored order is
    0.5, 0.9, 0.1. The comparison function answers -1 as soon as its first
    argument matches, also when the second matches too. *)
Theorem locality_rank_ignores_importance_among_matches :
  (forall (xs : list Normalizer.Location) (q : string),
      StronglySorted (Spec.locality_order q) (Ranker.rank India xs q)) /\
  (let locations := Normalizer.formattedSuggestions India Sample.three_springfields in
   let ranked := Ranker.rank India locations "spring" in
   forallb (Spec.city_matches "spring") locations = true /\
   map Normalizer.importance ranked =
     [JS.Finite (5 # 10); JS.Finite (9 # 10); JS.Finite (1 # 10)] /\
   Spec.descending (map Normalizer.importance ranked) = false /\
   (forall a b : Normalizer.Location,
       In a locations -> In b locations ->
       Ranker.compare_locality "spring" a b = JS.Finite (-1 # 1))).
Proof.
  split; [intros xs q; apply locality_sorted|].
  cbv zeta. split; [|split; [|split]]; try (vm_compute; reflexivity).
  intros a b Ha Hb. simpl in Ha, Hb.
  destruct Ha as [<-|[<-|[<-|[]]]]; reflexivity.
Qed.

(** C5 holds in the worldwide variant, whose comparison function is a
    consistent one, and fails on the code of the India variant: two
    candidates whose city contains the query change places at every
    ranking. *)
Theorem rank_idempotent_worldwide_not_india :
  (forall (xs : list Normalizer.Location) (q : string),
      Ranker.rank Worldwide (Ranker.rank Worldwide xs q) q =
      Ranker.rank Worldwide xs q) /\
  (let xs := Normalizer.formattedSuggestions India Sample.two_springfields in
   Ranker.rank India xs "spring" = rev xs /\
   Ranker.rank India (Ranker.rank India xs "spring") "spring" = xs /\
   Ranker.rank India (Ranker.rank India xs "spring") "spring" <>
   Ranker.rank India xs "spring").
Proof.
  split.
  - intros xs q. unfold Ranker.rank, Ranker.comparefn.
    apply sort_idempotent.
    + exact compare_importance_asym.
    + exact compare_importance_negtrans.
  - vm_compute. repeat split. discriminate.
Qed.

(** ** The component *)

Section WidgetFacts.
Import JS Normalizer Ranker Widget.

Lemma searchAddresses_short (searchQuery : string) (h : Host) :
  String.length searchQuery < 2 ->
  searchAddresses_start searchQuery h =
    set_ui {| query := query (ui h); suggestions := [];
              loading := loading (ui h);
              selectedLocation := selectedLocation (ui h);
              showSuggestions := false; error := error (ui h) |} h.
Proof.
  intros H. unfold searchAddresses_start.
  apply Nat.ltb_lt in H. now rewrite H.
Qed.

Lemma searchAddresses_dispatch (searchQuery : string) (h : Host) :
  2 <= String.length searchQuery ->
  in_flight (searchAddresses_start searchQuery h) = in_flight h ++ [searchQuery] /\
  issued (searchAddresses_start searchQuery h) = issued h ++ [searchQuery].
Proof.
  intros H. unfold searchAddresses_start.
  apply Nat.ltb_ge in H. rewrite H. split; reflexivity.
Qed.

Lemma resume_result (v : variant) (searchQuery : string) (r : response)
    (st : State) :
  suggestions (searchAddresses_resume v searchQuery r st) =
  Spec.result_of v searchQuery r.
Proof.
  unfold Spec.result_of.
  destruct r as [| | |data]; try reflexivity.
  destruct data; reflexivity.
Qed.

Lemma settle_last (v : variant) (e : Debounce.env string) (h : Host)
    (pending : list string) (searchQuery : string) (r : response) :
  in_flight h = pending ++ [searchQuery] ->
  settle v (List.length pending) r (e, h) =
    (e, {| ui := searchAddresses_resume v searchQuery r (ui h);
           in_flight := pending; issued := issued h |}).
Proof.
  intros E. unfold settle. rewrite E.
  now rewrite nth_error_last, remove_last.
Qed.

End WidgetFacts.

(** C1, as the code has it: the component has no sequence token and
    discards no response. Each response, when it arrives, replaces the
    candidates by its own result, so when request A is dispatched before
    request B and A's response arrives after B's, the candidates stored in
    the end are A's result. *)
Theorem last_response_wins :
  forall (v : variant) (e : Debounce.env string) (h : Widget.Host)
         (queryA queryB : string) (responseA responseB : Widget.response),
    2 <= String.length queryA ->
    2 <= String.length queryB ->
    let dispatched :=
      Widget.searchAddresses_start queryB (Widget.searchAddresses_start queryA h) in
    let a := List.length (Widget.in_flight h) in
    let final :=
      Widget.run v [Widget.Settle (S a) responseB; Widget.Settle a responseA]
        (e, dispatched) in
    Widget.issued dispatched = Widget.issued h ++ [queryA; queryB] /\
    Widget.suggestions (Widget.ui (snd final)) = Spec.result_of v queryA responseA /\
    Widget.in_flight (snd final) = Widget.in_flight h.
Proof.
  intros v e h queryA queryB responseA responseB HA HB dispatched a final.
  destruct (searchAddresses_dispatch queryA h HA) as [Hin1 Hiss1].
  destruct (searchAddresses_dispatch queryB
              (Widget.searchAddresses_start queryA h) HB) as [Hin2 Hiss2].
  fold dispatched in Hin2, Hiss2.
  split.
  - rewrite Hiss2, Hiss1, <- app_assoc. reflexivity.
  - unfold final, Widget.run. cbn [fold_left Widget.step].
    rewrite Hin1 in Hin2.
    replace (S a) with (List.length (Widget.in_flight h ++ [queryA]))
      by (rewrite length_app; simpl; unfold a; lia).
    rewrite (settle_last v e dispatched _ queryB responseB Hin2).
    unfold a. erewrite settle_last by reflexivity.
    cbn [snd Widget.ui Widget.in_flight].
    split; [apply resume_result|reflexivity].
Qed.

Lemma last_response_wins_witness :
  Widget.issued
    (Widget.searchAddresses_start "spring"
       (Widget.searchAddresses_start "sp" (snd Widget.initial_world))) =
    ["sp"; "spring"] /\
  Widget.suggestions
    (Widget.ui
       (snd (Widget.run India
               [Widget.Settle 1 (Widget.Json [Sample.springfield]);
                Widget.Settle 0 (Widget.Json [Sample.sparta])]
               (Debounce.initial,
                Widget.searchAddresses_start "spring"
                  (Widget.searchAddresses_start "sp" (snd Widget.initial_world)))))) =
    Spec.result_of India "sp" (Widget.Json [Sample.sparta]) /\
  Widget.in_flight
    (snd (Widget.run India
            [Widget.Settle 1 (Widget.Json [Sample.springfield]);
             Widget.Settle 0 (Widget.Json [Sample.sparta])]
            (Debounce.initial,
             Widget.searchAddresses_start "spring"
               (Widget.searchAddresses_start "sp" (snd Widget.initial_world))))) = [].
Proof.
  apply (last_response_wins India Debounce.initial (snd Widget.initial_world)
           "sp" "spring" (Widget.Json [Sample.sparta])
           (Widget.Json [Sample.springfield])); simpl; lia.
Defined.

(** C1, as the specification states it, fails: the user types [sp], then
    [spring]; both searches are dispatched, the response for [spring]
    arrives first and the response for [sp] last. The candidates stored in
    the end are those of [sp], not those of [spring]. *)
Lemma stale_response_overwrites_latest :
  let final :=
    Widget.run India
      [Widget.InputChange "sp"; Widget.Elapse 400;
       Widget.InputChange "spring"; Widget.Elapse 800;
       Widget.Settle 1 (Widget.Json [Sample.springfield]);
       Widget.Settle 0 (Widget.Json [Sample.sparta])]
      Widget.initial_world in
  Widget.issued (snd final) = ["sp"; "spring"] /\
  Widget.query (Widget.ui (snd final)) = "spring" /\
  Widget.suggestions (Widget.ui (snd final)) =
    Spec.result_of India "sp" (Widget.Json [Sample.sparta]) /\
  Widget.suggestions (Widget.ui (snd final)) <>
    Spec.result_of India "spring" (Widget.Json [Sample.springfield]).
Proof. vm_compute. repeat split. discriminate. Qed.

(** C6, as the specification states it, fails: after a search for [spring]
    has filled the list, selecting its candidate makes the component call
    the provider again, with the candidate's label, once the quiet period
    has passed. *)
Lemma selection_dispatches_search :
  let s := Normalizer.format India Sample.springfield 0 in
  let w :=
    Widget.run India
      [Widget.InputChange "spring"; Widget.Elapse 400;
       Widget.Settle 0 (Widget.Json [Sample.springfield])]
      Widget.initial_world in
  let w' := Widget.run India [Widget.SuggestionClick s; Widget.Elapse 800] w in
  Widget.suggestions (Widget.ui (snd w)) = [s] /\
  Widget.issued (snd w) = ["spring"] /\
  Widget.issued (snd w') = ["spring"; "Main St, Springfield"] /\
  Widget.issued (snd w') <> Widget.issued (snd w).
Proof. vm_compute. repeat split. discriminate. Qed.

(** C8: from every state, the clear action and an input change to the empty
    text leave the state Idle: no candidates, nothing selected, no error and
    an empty query. *)
Theorem clear_returns_to_idle :
  forall (v : variant) (w : Widget.World),
    Widget.Idle (Widget.ui (snd (Widget.step v w Widget.ClearInput))) /\
    Widget.Idle (Widget.ui (snd (Widget.step v w (Widget.InputChange "")))).
Proof.
  intros v [e h]. unfold Widget.Idle, Widget.step, Widget.handle, Widget.render.
  change (Widget.handleInputChange "" (Widget.ui h))
    with (Widget.clearInput (Widget.ui h)).
  cbn [snd fst Widget.set_ui Widget.ui Widget.clearInput Widget.query].
  destruct (Widget.query (Widget.ui h)); cbn; repeat split.
Qed.

(** ** The debouncer *)

Section DebounceFacts.
Import Debounce.
Context {Args St : Type}.
Variable func : Args -> St -> St.

Lemma advance_idle (t : nat) (e : env Args) (s : St) :
  pending e = [] ->
  advance func t (e, s) =
    ({| now := Nat.max (now e) t; next_id := next_id e; pending := [];
        timeout := timeout e |}, s).
Proof.
  intros H. unfold advance. cbn [fst]. rewrite H.
  cbn [List.length run_timers]. now rewrite H.
Qed.

Lemma advance_single (t : nat) (e : env Args) (s : St) (tm : timer Args) :
  pending e = [tm] ->
  let w' := advance func t (e, s) in
  snd w' = (if due tm <=? t then func (captured tm) s else s) /\
  pending (fst w') = (if due tm <=? t then [] else [tm]) /\
  timeout (fst w') = timeout e /\
  next_id (fst w') = next_id e /\
  now (fst w') =
    Nat.max (if due tm <=? t then Nat.max (now e) (due tm) else now e) t.
Proof.
  intros H. unfold advance. cbn [fst]. rewrite H.
  cbn [List.length run_timers fst]. unfold next_due. rewrite H.
  cbn [earliest]. destruct (due tm <=? t).
  - unfold fire. rewrite H. cbn [filter]. rewrite Nat.eqb_refl.
    cbn [negb run_timers timeout]. destruct (timeout e); repeat split.
  - rewrite H. repeat split.
Qed.

Lemma earliest_pending (l : list (timer Args)) (tm : timer Args) :
  earliest l = Some tm -> In tm l.
Proof.
  revert tm. induction l as [|x l IH]; simpl; intros tm E; [discriminate|].
  destruct (earliest l) as [tm'|].
  - destruct (due tm' <? due x); inversion E; subst; auto.
  - inversion E; subst; auto.
Qed.

Lemma fired_timer_leaves (l : list (timer Args)) (tm : timer Args) :
  In tm l ->
  List.length (filter (fun x => negb (timer_id x =? timer_id tm)) l) <
  List.length l.
Proof.
  induction l as [|x l IH]; simpl; intros H; [contradiction|].
  destruct H as [->|H].
  - rewrite Nat.eqb_refl. simpl.
    pose proof (filter_length_le (fun x => negb (timer_id x =? timer_id tm)) l).
    lia.
  - specialize (IH H).
    destruct (negb (timer_id x =? timer_id tm)); simpl; lia.
Qed.

(** One round for every pending timer is enough: afterwards no timer is
    due. *)
Lemma run_timers_complete (rounds t : nat) :
  forall w : env Args * St,
    List.length (pending (fst w)) <= rounds ->
    next_due t (fst (run_timers func rounds t w)) = None.
Proof.
  induction rounds as [|rounds IH]; intros [e s] Hlen; cbn [fst] in *.
  - destruct (pending e) eqn:Hp; [|simpl in Hlen; lia].
    cbn [run_timers fst]. unfold next_due. now rewrite Hp.
  - cbn [run_timers fst].
    destruct (next_due t e) as [tm|] eqn:Hdue; [|exact Hdue].
    apply IH. unfold next_due in Hdue.
    destruct (earliest (pending e)) as [tm'|] eqn:He; [|discriminate].
    destruct (due tm' <=? t); [|discriminate].
    injection Hdue as ->.
    apply earliest_pending, fired_timer_leaves in He.
    unfold fire, clearTimeout. cbn [timeout].
    destruct (timeout e); cbn [fst pending].
    + match goal with
      | |- List.length (filter ?f ?l) <= _ =>
          pose proof (filter_length_le f l)
      end.
      lia.
    + lia.
Qed.

Lemma advance_complete (t : nat) (w : env Args * St) :
  next_due t (fst (advance func t w)) = None.
Proof.
  unfold advance.
  pose proof (run_timers_complete (List.length (pending (fst w))) t w
                (Nat.le_refl _)) as H.
  destruct (run_timers func (List.length (pending (fst w))) t w) as [e s].
  exact H.
Qed.

Lemma executedFunction_replaces (wait : nat) (a : Args) (e : env Args) :
  pending e = [] \/
  (exists tm, pending e = [tm] /\ timeout e = Some (timer_id tm)) ->
  executedFunction wait a e =
    {| now := now e; next_id := S (next_id e);
       pending := [{| timer_id := next_id e; due := now e + wait;
                      captured := a |}];
       timeout := Some (next_id e) |}.
Proof.
  unfold executedFunction, setTimeout, clearTimeout.
  intros [H|[tm [H Hid]]].
  - destruct (timeout e); cbn; rewrite H; reflexivity.
  - rewrite Hid. cbn. rewrite H. cbn. now rewrite Nat.eqb_refl.
Qed.


End DebounceFacts.



(** C7, as the code has it: for a query text shorter than two characters
    after trimming no provider call is issued. [searchAddresses] clears the
    candidates and hides the list at once, before any request; it sets
    neither the loading flag nor an error, and it leaves the query text, the
    selection and an error message of an earlier search as they are. *)
Theorem short_query_issues_no_request :
  forall (v : variant) (value : string),
    String.length (JS.trim value) < 2 ->
    (forall h : Widget.Host,
        let h' := Widget.searchAddresses_start (JS.trim value) h in
        Widget.issued h' = Widget.issued h /\
        Widget.in_flight h' = Widget.in_flight h /\
        Widget.suggestions (Widget.ui h') = [] /\
        Widget.showSuggestions (Widget.ui h') = false /\
        Widget.loading (Widget.ui h') = Widget.loading (Widget.ui h) /\
        Widget.error (Widget.ui h') = Widget.error (Widget.ui h) /\
        Widget.query (Widget.ui h') = Widget.query (Widget.ui h) /\
        Widget.selectedLocation (Widget.ui h') =
          Widget.selectedLocation (Widget.ui h)) /\
    (forall (w : Widget.World) (t : nat),
        Debounce.pending (fst w) = [] ->
        let w' := Widget.run v [Widget.InputChange value; Widget.Elapse t] w in
        Widget.issued (snd w') = Widget.issued (snd w) /\
        Widget.in_flight (snd w') = Widget.in_flight (snd w)).
Proof.
  intros v value Hshort. split.
  - intros h h'. unfold h'. rewrite (searchAddresses_short _ h Hshort).
    repeat split.
  - intros [e h] t Hidle. cbn [fst] in Hidle.
    unfold Widget.run. cbn [fold_left Widget.step].
    unfold Widget.handle, Widget.render. cbn [fst snd].
    assert (Hq : Widget.query (Widget.handleInputChange value (Widget.ui h)) = value).
    { unfold Widget.handleInputChange. now destruct (String.eqb value ""). }
    set (st1 := Widget.handleInputChange value (Widget.ui h)) in *.
    set (h1 := Widget.set_ui st1 h).
    change (Widget.ui h1) with st1. rewrite Hq.
    assert (Hh1 : Widget.issued h1 = Widget.issued h /\
                  Widget.in_flight h1 = Widget.in_flight h)
      by (split; reflexivity).
    destruct (String.eqb value (Widget.query (Widget.ui h))).
    + rewrite advance_idle by exact Hidle. exact Hh1.
    + unfold Widget.query_effect. change (Widget.ui h1) with st1. rewrite Hq.
      destruct (JS.truthy_string (JS.trim value)).
      * match goal with
        | |- context [Debounce.advance _ t (?e', ?h')] =>
            destruct (advance_single Widget.searchAddresses_start t e' h'
                        {| Debounce.timer_id := Debounce.next_id e;
                           Debounce.due := Debounce.now e + Widget.quiet_period;
                           Debounce.captured := JS.trim value |}) as [Hs _]
        end.
        { rewrite executedFunction_replaces by (left; exact Hidle).
          reflexivity. }
        rewrite Hs. cbn [Debounce.due Debounce.captured].
        destruct (_ <=? t); [|exact Hh1].
        rewrite (searchAddresses_short _ _ Hshort). exact Hh1.
      * rewrite advance_idle by exact Hidle. exact Hh1.
Qed.

Lemma short_query_issues_no_request_witness :
  Widget.issued
    (snd (Widget.run India [Widget.InputChange " z "; Widget.Elapse 400]
            Widget.initial_world)) = [] /\
  Widget.in_flight
    (snd (Widget.run India [Widget.InputChange " z "; Widget.Elapse 400]
            Widget.initial_world)) = [].
Proof.
  apply (short_query_issues_no_request India " z ");
    [vm_compute; lia|reflexivity].
Defined.

(** C7, as the specification states it, fails: a search for [zz] fails and
    leaves its error message; the user then shortens the text to [z]. No
    provider call is made for [z], but the state is not Idle: the query text
    is [z] and the error message of the failed search is still there. *)
Lemma short_query_keeps_stale_error :
  let w :=
    Widget.run India
      [Widget.InputChange "zz"; Widget.Elapse 400; Widget.Settle 0 Widget.Rejected;
       Widget.InputChange "z"; Widget.Elapse 1000]
      Widget.initial_world in
  Widget.issued (snd w) = ["zz"] /\
  Widget.error (Widget.ui (snd w)) =
    "Failed to fetch locations. Please check your internet connection." /\
  ~ Widget.Idle (Widget.ui (snd w)).
Proof.
  vm_compute. repeat split. intros (Hq & _). discriminate.
Qed.

Section SelectionFacts.
Import JS Normalizer Widget.

Lemma selection_schedules (v : variant) (e : Debounce.env string) (h : Host)
    (s : Location) :
  clean_display_name s <> query (ui h) ->
  truthy_string (trim (clean_display_name s)) = true ->
  step v (e, h) (SuggestionClick s) =
    (Debounce.executedFunction quiet_period (trim (clean_display_name s)) e,
     set_ui (handleSuggestionClick s (ui h)) h).
Proof.
  intros Hneq Htrim. cbn [step]. unfold handle, render. cbn [fst snd].
  set (st1 := handleSuggestionClick s (ui h)).
  set (h1 := set_ui st1 h). change (ui h1) with st1.
  change (query st1) with (clean_display_name s).
  apply String.eqb_neq in Hneq. rewrite Hneq.
  unfold query_effect. change (ui h1) with st1.
  change (query st1) with (clean_display_name s). now rewrite Htrim.
Qed.

End SelectionFacts.

(** C6, as the code has it: selecting a candidate whose label is not blank
    sets [selected] to exactly that Location, replaces the query text by the
    label, hides the suggestion list, clears the error and leaves the
    candidates as they are; no provider call is made at that moment. The
    selection does start a search of its own: when the label differs from
    the text before, the change of the query text arms the debounce timer
    for the trimmed label. Until that timer is due nothing is sent and the
    candidates stay; once the quiet period of 400 has passed
    [searchAddresses] runs with the trimmed label: a label of two characters
    or more is sent to the provider, with the loading flag up and the
    candidates still in place, and a label of one character is not sent and
    the candidates are emptied. *)
Theorem selection_sets_state_and_schedules_search :
  forall (v : variant) (w : Widget.World) (s : Normalizer.Location),
    JS.truthy_string (JS.trim (Normalizer.clean_display_name s)) = true ->
    let before := Widget.ui (snd w) in
    let label := Normalizer.clean_display_name s in
    let w' := Widget.step v w (Widget.SuggestionClick s) in
    let after := Widget.ui (snd w') in
    (Widget.selectedLocation after = Some s /\
     Widget.query after = label /\
     Widget.suggestions after = Widget.suggestions before /\
     Widget.showSuggestions after = false /\
     Widget.error after = "" /\
     Widget.issued (snd w') = Widget.issued (snd w) /\
     Widget.in_flight (snd w') = Widget.in_flight (snd w) /\
     fst w' =
       (if String.eqb label (Widget.query before)
        then fst w
        else Debounce.executedFunction Widget.quiet_period (JS.trim label)
               (fst w))) /\
    (Behaviour.one_timer (fst w) ->
     label <> Widget.query before ->
     forall t : nat,
       t < Debounce.now (fst w) + Widget.quiet_period ->
       let w'' := Widget.step v w' (Widget.Elapse t) in
       Widget.issued (snd w'') = Widget.issued (snd w) /\
       Widget.suggestions (Widget.ui (snd w'')) = Widget.suggestions before) /\
    (Behaviour.one_timer (fst w) ->
     label <> Widget.query before ->
     forall t : nat,
       Debounce.now (fst w) + Widget.quiet_period <= t ->
       let w'' := Widget.step v w' (Widget.Elapse t) in
       let short := String.length (JS.trim label) <? 2 in
       Widget.issued (snd w'') =
         (if short then Widget.issued (snd w)
          else Widget.issued (snd w) ++ [JS.trim label]) /\
       Widget.in_flight (snd w'') =
         (if short then Widget.in_flight (snd w)
          else Widget.in_flight (snd w) ++ [JS.trim label]) /\
       Widget.suggestions (Widget.ui (snd w'')) =
         (if short then [] else Widget.suggestions before) /\
       Widget.loading (Widget.ui (snd w'')) =
         (if short then Widget.loading before else true) /\
       Widget.query (Widget.ui (snd w'')) = label /\
       Widget.selectedLocation (Widget.ui (snd w'')) = Some s /\
       Debounce.pending (fst w'') = []).
Proof.
  intros v [e h] s Hlabel. cbn [snd fst]. cbv zeta. split; [|split].
  - unfold Widget.step, Widget.handle, Widget.render. cbn [snd fst].
    cbn [Widget.set_ui Widget.ui Widget.handleSuggestionClick Widget.query].
    destruct (String.eqb (Normalizer.clean_display_name s)
                (Widget.query (Widget.ui h))).
    + repeat split.
    + unfold Widget.query_effect.
      cbn -[JS.trim JS.truthy_string Debounce.executedFunction String.eqb].
      rewrite Hlabel. repeat split.
  - intros Hone Hneq t Ht.
    rewrite (selection_schedules v e h s Hneq Hlabel).
    rewrite executedFunction_replaces by exact Hone.
    match goal with
    | |- context [Widget.step v (?e', ?h') (Widget.Elapse t)] =>
        destruct (advance_single Widget.searchAddresses_start t e' h'
                    {| Debounce.timer_id := Debounce.next_id e;
                       Debounce.due := Debounce.now e + Widget.quiet_period;
                       Debounce.captured :=
                         JS.trim (Normalizer.clean_display_name s) |} eq_refl)
          as (Hs & _)
    end.
    cbn [Debounce.due Debounce.captured] in Hs.
    apply Nat.leb_gt in Ht. rewrite Ht in Hs.
    cbn [Widget.step]. rewrite Hs. split; reflexivity.
  - intros Hone Hneq t Ht.
    rewrite (selection_schedules v e h s Hneq Hlabel).
    rewrite executedFunction_replaces by exact Hone.
    match goal with
    | |- context [Widget.step v (?e', ?h') (Widget.Elapse t)] =>
        destruct (advance_single Widget.searchAddresses_start t e' h'
                    {| Debounce.timer_id := Debounce.next_id e;
                       Debounce.due := Debounce.now e + Widget.quiet_period;
                       Debounce.captured :=
                         JS.trim (Normalizer.clean_display_name s) |} eq_refl)
          as (Hs & Hp & _)
    end.
    cbn [Debounce.due Debounce.captured] in Hs, Hp.
    apply Nat.leb_le in Ht. rewrite Ht in Hs, Hp.
    cbn [Widget.step]. rewrite Hs, Hp.
    unfold Widget.searchAddresses_start.
    destruct (String.length (JS.trim (Normalizer.clean_display_name s)) <? 2);
      repeat split.
Qed.

Lemma selection_sets_state_and_schedules_search_witness :
  let s := Normalizer.format India Sample.springfield 0 in
  let w :=
    Widget.run India
      [Widget.InputChange "spring"; Widget.Elapse 400;
       Widget.Settle 0 (Widget.Json [Sample.springfield])]
      Widget.initial_world in
  let w' := Widget.step India w (Widget.SuggestionClick s) in
  (Widget.selectedLocation (Widget.ui (snd w')) = Some s /\
   Widget.query (Widget.ui (snd w')) = "Main St, Springfield" /\
   Widget.suggestions (Widget.ui (snd w')) = [s] /\
   Widget.showSuggestions (Widget.ui (snd w')) = false /\
   Widget.error (Widget.ui (snd w')) = "" /\
   Widget.issued (snd w') = ["spring"] /\
   Widget.in_flight (snd w') = [] /\
   fst w' = Debounce.executedFunction 400 "Main St, Springfield" (fst w)) /\
  (let w'' := Widget.step India w' (Widget.Elapse 799) in
   Widget.issued (snd w'') = ["spring"] /\
   Widget.suggestions (Widget.ui (snd w'')) = [s]) /\
  (let w'' := Widget.step India w' (Widget.Elapse 800) in
   Widget.issued (snd w'') = ["spring"; "Main St, Springfield"] /\
   Widget.in_flight (snd w'') = ["Main St, Springfield"] /\
   Widget.suggestions (Widget.ui (snd w'')) = [s] /\
   Widget.loading (Widget.ui (snd w'')) = true /\
   Widget.query (Widget.ui (snd w'')) = "Main St, Springfield" /\
   Widget.selectedLocation (Widget.ui (snd w'')) = Some s /\
   Debounce.pending (fst w'') = []).
Proof.
  destruct (selection_sets_state_and_schedules_search India
              (Widget.run India
                 [Widget.InputChange "spring"; Widget.Elapse 400;
                  Widget.Settle 0 (Widget.Json [Sample.springfield])]
                 Widget.initial_world)
              (Normalizer.format India Sample.springfield 0) eq_refl)
    as (Hnow & Hearly & Hdue).
  split; [exact Hnow|]. split.
  - apply (Hearly (or_introl eq_refl)); [discriminate|vm_compute; lia].
  - apply (Hdue (or_introl eq_refl)); [discriminate|vm_compute; lia].
Defined.

(** * Further properties *)

(** ** Ranking *)

(** A comparison function is only consulted on the elements of the array:
    two functions that agree on them sort it alike. *)
Section SortExtensional.
Import JS.
Context {A : Type}.
Variables comparefn comparefn' : A -> A -> number.

Lemma extend_run_agree (d : bool) (rest : list A) :
  forall previous,
    (forall x y, In x (previous :: rest) -> In y (previous :: rest) ->
                 precedes comparefn x y = precedes comparefn' x y) ->
    extend_run comparefn d previous rest = extend_run comparefn' d previous rest.
Proof.
  induction rest as [|x rest IH]; intros previous H; [reflexivity|].
  cbn [extend_run]. rewrite (H x previous) by (simpl; auto).
  rewrite (IH x) by (intros a b Ha Hb; apply H; simpl in *; tauto).
  reflexivity.
Qed.

Lemma countAndMakeRun_agree (workArray : list A) :
  (forall x y, In x workArray -> In y workArray ->
               precedes comparefn x y = precedes comparefn' x y) ->
  countAndMakeRun comparefn workArray = countAndMakeRun comparefn' workArray.
Proof.
  destruct workArray as [|x0 [|x1 rest]]; intros H; try reflexivity.
  cbn [countAndMakeRun]. rewrite (H x1 x0) by (simpl; auto).
  rewrite (extend_run_agree _ rest x1)
    by (intros a b Ha Hb; apply H; simpl in *; tauto).
  reflexivity.
Qed.

Lemma find_insertion_point_agree (pivot : A) (workArray : list A) :
  (forall y, In y (pivot :: workArray) ->
             precedes comparefn pivot y = precedes comparefn' pivot y) ->
  forall steps left right,
    find_insertion_point comparefn steps pivot workArray left right =
    find_insertion_point comparefn' steps pivot workArray left right.
Proof.
  intros H. induction steps as [|steps IH]; intros left right; [reflexivity|].
  cbn [find_insertion_point]. destruct (left <? right); [|reflexivity].
  rewrite H, !IH; [reflexivity|].
  destruct (Nat.lt_ge_cases (left + Nat.div2 (right - left))
              (List.length workArray)) as [Hlt|Hge].
  - right. now apply nth_In.
  - left. now rewrite nth_overflow.
Qed.

Lemma binaryInsertionSort_agree (remaining : list A) :
  forall run,
    (forall x y, In x (run ++ remaining) -> In y (run ++ remaining) ->
                 precedes comparefn x y = precedes comparefn' x y) ->
    binaryInsertionSort comparefn run remaining =
    binaryInsertionSort comparefn' run remaining.
Proof.
  unfold binaryInsertionSort.
  induction remaining as [|p remaining IH]; intros run H; [reflexivity|].
  cbn [fold_left].
  assert (E : insert_pivot comparefn run p = insert_pivot comparefn' run p).
  { unfold insert_pivot. rewrite find_insertion_point_agree; [reflexivity|].
    intros y Hy. apply H; rewrite in_app_iff; simpl in *; tauto. }
  rewrite E. apply IH. intros x y Hx Hy.
  assert (Hin : forall z, In z (insert_pivot comparefn' run p ++ remaining) ->
                          In z (run ++ p :: remaining)).
  { intros z Hz. rewrite in_app_iff in *. destruct Hz as [Hz|Hz].
    - unfold insert_pivot in Hz.
      apply (Permutation_in _ (insert_at_permutation _ p run)) in Hz.
      simpl in *. tauto.
    - simpl. tauto. }
  apply H; auto.
Qed.

Lemma sort_agree (array : list A) :
  (forall x y, In x array -> In y array ->
               precedes comparefn x y = precedes comparefn' x y) ->
  sort comparefn array = sort comparefn' array.
Proof.
  intros H. unfold sort. rewrite <- (countAndMakeRun_agree array H).
  destruct (countAndMakeRun comparefn array) as [run remaining] eqn:E.
  apply binaryInsertionSort_agree. intros x y Hx Hy.
  pose proof (countAndMakeRun_permutation comparefn array run remaining E) as P.
  apply H; eapply Permutation_in; eauto.
Qed.

End SortExtensional.

(** With a consistent comparison function the sort is stable: the elements
    tied with a given one keep the order they came in. *)
Section StableSort.
Import JS Behaviour.
Context {A : Type}.
Variable comparefn : A -> A -> number.

Hypothesis precedes_asym :
  forall x y, precedes comparefn x y = true -> precedes comparefn y x = false.
Hypothesis precedes_negtrans :
  forall x y z,
    precedes comparefn x y = false -> precedes comparefn y z = false ->
    precedes comparefn x z = false.

Lemma tied_not_before (x p e : A) :
  tied comparefn x p = true -> precedes comparefn p e = true ->
  tied comparefn x e = false.
Proof.
  unfold tied. intros Hxp Hpe.
  apply andb_true_iff in Hxp. destruct Hxp as [Hxp Hpx].
  apply negb_true_iff in Hxp, Hpx.
  destruct (precedes comparefn x e) eqn:Hxe; [reflexivity|].
  rewrite (precedes_negtrans p x e Hpx Hxe) in Hpe. discriminate.
Qed.

Lemma tied_not_after (x p e : A) :
  tied comparefn x p = true -> precedes comparefn e p = true ->
  tied comparefn x e = false.
Proof.
  unfold tied. intros Hxp Hep.
  apply andb_true_iff in Hxp. destruct Hxp as [Hxp Hpx].
  apply negb_true_iff in Hxp, Hpx.
  destruct (precedes comparefn e x) eqn:Hex; [now rewrite andb_false_r|].
  rewrite (precedes_negtrans e x p Hex Hxp) in Hep. discriminate.
Qed.

Lemma filter_none (f : A -> bool) (l : list A) :
  Forall (fun e => f e = false) l -> filter f l = [].
Proof.
  induction 1 as [|e l He _ IH]; simpl; [reflexivity|]. now rewrite He.
Qed.

Lemma descending_run_ties (x : A) (l : list A) :
  StronglySorted (out_of_order comparefn) l ->
  filter (tied comparefn x) (rev l) = filter (tied comparefn x) l.
Proof.
  induction 1 as [|a l Hs IH Hf]; [reflexivity|].
  cbn [rev]. rewrite filter_app, IH. cbn [filter].
  destruct (tied comparefn x a) eqn:Ha; [|now rewrite app_nil_r].
  rewrite filter_none; [reflexivity|].
  rewrite Forall_forall in *. intros b Hb.
  apply tied_not_after with a; auto. now apply Hf.
Qed.

Lemma countAndMakeRun_ties (x : A) (workArray run remaining : list A) :
  countAndMakeRun comparefn workArray = (run, remaining) ->
  filter (tied comparefn x) (run ++ remaining) =
  filter (tied comparefn x) workArray.
Proof.
  destruct workArray as [|x0 [|x1 rest]]; cbn [countAndMakeRun]; intros E.
  - now inversion E.
  - now inversion E.
  - destruct (extend_run comparefn (precedes comparefn x1 x0) x1 rest)
      as [run' remaining'] eqn:E'.
    pose proof (extend_run_splits comparefn _ _ _ _ _ E') as Hrest.
    apply extend_run_chain in E'. injection E as <- <-.
    replace (x0 :: x1 :: rest) with ((x0 :: x1 :: run') ++ remaining')
      by (rewrite Hrest; reflexivity).
    rewrite !filter_app. f_equal.
    destruct (precedes comparefn x1 x0) eqn:Hd; [|reflexivity].
    apply (descending_run_ties x (x0 :: x1 :: run')).
    apply Sorted_StronglySorted.
    + intros a b c Hab Hbc. unfold out_of_order in *.
      apply (precedes_trans comparefn precedes_asym precedes_negtrans c b a);
        assumption.
    + constructor; [exact E'|]. constructor. exact Hd.
Qed.

Lemma insert_pivot_ties (x pivot : A) (sorted : list A) :
  ordered comparefn sorted ->
  filter (tied comparefn x) (insert_pivot comparefn sorted pivot) =
  filter (tied comparefn x) (sorted ++ [pivot]).
Proof.
  intros Hord. unfold insert_pivot, insert_at.
  destruct (find_insertion_point_spec comparefn (in_order comparefn)
              (fun p x y Hpx Hxy =>
                 precedes_before comparefn precedes_negtrans p x y Hpx Hxy)
              (fun p x y Hpx Hyx => precedes_negtrans p x y Hpx Hyx)
              pivot sorted Hord
              (List.length sorted) 0 (List.length sorted)) as [_ Hr];
    try lia.
  - constructor.
  - rewrite skipn_all. constructor.
  - set (k := find_insertion_point comparefn (List.length sorted) pivot sorted
                0 (List.length sorted)) in *.
    rewrite <- (firstn_skipn k sorted) at 3.
    rewrite !filter_app. cbn [filter].
    destruct (tied comparefn x pivot) eqn:Hp; [|now rewrite app_nil_r].
    rewrite (filter_none (tied comparefn x) (skipn k sorted));
      [now rewrite app_nil_r|].
    rewrite Forall_forall in *. intros e He.
    apply tied_not_before with pivot; auto.
Qed.

Lemma binaryInsertionSort_ties (x : A) (remaining : list A) :
  forall run,
    ordered comparefn run ->
    filter (tied comparefn x) (binaryInsertionSort comparefn run remaining) =
    filter (tied comparefn x) (run ++ remaining).
Proof.
  unfold binaryInsertionSort.
  induction remaining as [|p remaining IH]; intros run Hrun.
  - now rewrite app_nil_r.
  - cbn [fold_left]. rewrite IH.
    + rewrite filter_app, (insert_pivot_ties x p run Hrun), <- filter_app.
      now rewrite <- app_assoc.
    + unfold ordered.
      apply insert_pivot_sorted with (after := out_of_order comparefn);
        unfold in_order, out_of_order; intros;
        eauto using precedes_before.
Qed.

Lemma sort_stable (x : A) (array : list A) :
  filter (tied comparefn x) (sort comparefn array) =
  filter (tied comparefn x) array.
Proof.
  unfold sort.
  destruct (countAndMakeRun comparefn array) as [run remaining] eqn:E.
  rewrite binaryInsertionSort_ties.
  - now apply countAndMakeRun_ties.
  - unfold ordered.
    apply countAndMakeRun_sorted
      with (comparefn := comparefn) (after := out_of_order comparefn)
           (workArray := array) (remaining := remaining);
      unfold in_order, out_of_order; intros;
      eauto using precedes_trans, precedes_before.
Qed.

End StableSort.

(** X1: ranking neither loses nor duplicates a candidate: in both variants
    the ranked list is a rearrangement of the list it is given. *)
Theorem rank_keeps_candidates :
  forall (v : variant) (xs : list Normalizer.Location) (q : string),
    Permutation (Ranker.rank v xs q) xs.
Proof. intros v xs q. apply sort_permutation. Qed.

(** X2: in the worldwide variant no candidate of the ranked list is less
    important than one that follows it, whatever the query. *)
Theorem worldwide_rank_descending :
  forall (xs : list Normalizer.Location) (q : string),
    StronglySorted Spec.at_least_as_important (Ranker.rank Worldwide xs q).
Proof.
  intros xs q.
  exact (sort_ordered Ranker.compare_importance compare_importance_asym
           compare_importance_negtrans xs).
Qed.

(** X3: the worldwide ranking is stable: the candidates that are as
    important as a given one stand in the ranked list in the provider's
    order. *)
Theorem worldwide_rank_stable :
  forall (xs : list Normalizer.Location) (q : string) (x : Normalizer.Location),
    filter (Behaviour.same_importance x) (Ranker.rank Worldwide xs q) =
    filter (Behaviour.same_importance x) xs.
Proof.
  intros xs q x.
  exact (sort_stable Ranker.compare_importance compare_importance_asym
           compare_importance_negtrans x xs).
Qed.

(** X4: when no candidate's city contains the query, the India variant
    ranks as the worldwide variant does, by importance alone. *)
Theorem locality_rank_without_match :
  forall (xs : list Normalizer.Location) (q : string),
    Forall (fun l => Spec.city_matches q l = false) xs ->
    Ranker.rank India xs q = Ranker.rank Worldwide xs q.
Proof.
  intros xs q H. unfold Ranker.rank, Ranker.comparefn.
  apply sort_agree. intros x y Hx Hy.
  rewrite precedes_locality.
  rewrite Forall_forall in H. now rewrite (H x Hx), (H y Hy).
Qed.

Lemma locality_rank_without_match_witness :
  Ranker.rank India
    (Normalizer.formattedSuggestions India [Sample.sparta; Sample.springfield])
    "delhi" =
  Ranker.rank Worldwide
    (Normalizer.formattedSuggestions India [Sample.sparta; Sample.springfield])
    "delhi".
Proof.
  apply (locality_rank_without_match
           (Normalizer.formattedSuggestions India
              [Sample.sparta; Sample.springfield]) "delhi").
  repeat constructor.
Defined.

(** ** Labels and identifiers *)

Section LabelFacts.
Import JS Normalizer Behaviour.

Lemma push_if_truthy (x : option string) (parts : list string) :
  Forall (fun s => truthy_string s = true) parts ->
  Forall (fun s => truthy_string s = true) (push_if x parts).
Proof.
  intros H. destruct x as [s|]; simpl; auto.
  destruct (truthy_string s) eqn:Hs; auto.
  apply Forall_app. split; auto.
Qed.

Lemma address_parts_truthy (v : variant) (a : RawAddress) :
  Forall (fun s => truthy_string s = true) (address_parts v a).
Proof.
  unfold address_parts.
  assert (H8 : Forall (fun s => truthy_string s = true)
    (push_if (raw_state a)
       (if strict_neq (raw_state_district a) (or_else (raw_city a) (raw_town a))
        then push_if (raw_state_district a)
               (push_if (or_else (or_else (raw_city a) (raw_town a)) (raw_village a))
                  (push_if (raw_city_district a)
                     (push_if (raw_suburb a)
                        (push_if (raw_neighbourhood a)
                           (push_if (raw_road a)
                              (push_if (raw_house_number a) []))))))
        else push_if (or_else (or_else (raw_city a) (raw_town a)) (raw_village a))
               (push_if (raw_city_district a)
                  (push_if (raw_suburb a)
                     (push_if (raw_neighbourhood a)
                        (push_if (raw_road a)
                           (push_if (raw_house_number a) [])))))))).
  { apply push_if_truthy.
    destruct (strict_neq _ _); repeat apply push_if_truthy; constructor. }
  destruct v.
  - destruct (raw_postcode a) as [p|]; [|exact H8].
    destruct (truthy_string p); [|exact H8].
    apply Forall_app. split; [exact H8|]. repeat constructor.
  - do 2 apply push_if_truthy. exact H8.
Qed.

Lemma join_truthy (sep : string) (parts : list string) :
  parts <> [] ->
  Forall (fun s => truthy_string s = true) parts ->
  truthy_string (join sep parts) = true.
Proof.
  destruct parts as [|s rest]; [congruence|]. intros _ H.
  inversion H as [|? ? Hs _]; subst.
  destruct s as [|c s]; [discriminate|].
  unfold join. destruct rest; reflexivity.
Qed.

Lemma push_if_falsy (x : option string) (parts : list string) :
  truthy x = false -> push_if x parts = parts.
Proof.
  destruct x as [s|]; simpl; [|reflexivity]. now intros ->.
Qed.

Lemma or_else_falsy (x y : option string) :
  truthy x = false -> truthy y = false -> truthy (or_else x y) = false.
Proof. unfold or_else. intros Hx Hy. now rewrite Hx. Qed.

End LabelFacts.

(** X5: the label of a Location is never empty when the provider's display
    name is not: every part of a label is a non-empty string, and without
    parts the label is the display name. *)
Theorem label_never_empty :
  forall (v : variant) (item : Normalizer.RawCandidate) (index : nat),
    Normalizer.raw_display_name item <> "" ->
    Normalizer.clean_display_name (Normalizer.format v item index) <> "".
Proof.
  intros v item index Hname.
  unfold Normalizer.format. cbn [Normalizer.clean_display_name].
  pose proof (address_parts_truthy v (Normalizer.address_of item)) as Hparts.
  destruct (Normalizer.address_parts v (Normalizer.address_of item))
    as [|s rest] eqn:E.
  - exact Hname.
  - cbn [List.length Nat.ltb Nat.leb].
    intros Hempty.
    assert (Ht : JS.truthy_string (JS.join ", " (s :: rest)) = true)
      by (apply join_truthy; [discriminate|exact Hparts]).
    rewrite Hempty in Ht. discriminate.
Qed.

Lemma label_never_empty_witness :
  Normalizer.clean_display_name (Normalizer.format India Sample.sparta 3) <> "".
Proof.
  apply (label_never_empty India Sample.sparta 3). discriminate.
Defined.

(** X6: a candidate whose address has none of the fields that the label is
    built from, or has no address at all, gets the provider's display name
    as its label. In the India variant the country is not one of these
    fields. *)
Theorem label_falls_back_to_display_name :
  forall (v : variant) (item : Normalizer.RawCandidate) (index : nat),
    Behaviour.no_label_field v (Normalizer.address_of item) ->
    Normalizer.clean_display_name (Normalizer.format v item index) =
    Normalizer.raw_display_name item.
Proof.
  intros v item index
    (Hhn & Hroad & Hnb & Hsub & Hcd & Hcity & Htown & Hvil & Hsd & Hst & Hpc & Hco).
  unfold Normalizer.format. cbn [Normalizer.clean_display_name].
  assert (E : Normalizer.address_parts v (Normalizer.address_of item) = []).
  { unfold Normalizer.address_parts.
    rewrite (push_if_falsy _ _ Hhn), (push_if_falsy _ _ Hroad),
      (push_if_falsy _ _ Hnb), (push_if_falsy _ _ Hsub),
      (push_if_falsy _ _ Hcd).
    rewrite (push_if_falsy _ _
               (or_else_falsy _ _ (or_else_falsy _ _ Hcity Htown) Hvil)).
    rewrite (push_if_falsy _ _ Hsd).
    destruct (JS.strict_neq _ _); rewrite (push_if_falsy _ _ Hst);
      destruct v;
      try (rewrite (push_if_falsy _ _ Hco), (push_if_falsy _ _ Hpc); reflexivity);
      destruct (Normalizer.raw_postcode (Normalizer.address_of item)) as [p|];
      try reflexivity; simpl in Hpc; now rewrite Hpc. }
  now rewrite E.
Qed.

Lemma label_falls_back_to_display_name_witness :
  Normalizer.clean_display_name
    (Normalizer.format India
       {| Normalizer.raw_place_id := Some 7%Z;
          Normalizer.raw_display_name := "Somewhere";
          Normalizer.raw_lat := "1"; Normalizer.raw_lon := "2";
          Normalizer.raw_type := None; Normalizer.raw_class := None;
          Normalizer.raw_importance := None;
          Normalizer.raw_address := None |} 0) = "Somewhere".
Proof.
  apply (label_falls_back_to_display_name India
           {| Normalizer.raw_place_id := Some 7%Z;
              Normalizer.raw_display_name := "Somewhere";
              Normalizer.raw_lat := "1"; Normalizer.raw_lon := "2";
              Normalizer.raw_type := None; Normalizer.raw_class := None;
              Normalizer.raw_importance := None;
              Normalizer.raw_address := None |} 0).
  repeat split.
Defined.

Section IdentifierFacts.
Import JS Normalizer Behaviour.

Lemma read_digit_char (a : Z) (c m : nat) (s : string) :
  m < 10 ->
  read_digits a c (String (ascii_of_nat (48 + m)) s) =
  read_digits (10 * a + Z.of_nat m) (S c) s.
Proof.
  intros Hm. cbn [read_digits]. unfold is_digit, digit_value.
  rewrite nat_ascii_embedding by lia.
  replace (48 <=? 48 + m) with true by (symmetry; apply Nat.leb_le; lia).
  replace (48 + m <=? 57) with true by (symmetry; apply Nat.leb_le; lia).
  cbn [andb]. do 2 f_equal. lia.
Qed.

Lemma digits_of_read (fuel : nat) :
  forall (n : nat) (acc : string) (a : Z) (c : nat),
    n < fuel ->
    exists k,
      read_digits a c (digits_of fuel n acc) =
      read_digits (a * 10 ^ Z.of_nat k + Z.of_nat n) (c + k) acc.
Proof.
  induction fuel as [|fuel IH]; intros n acc a c Hn; [lia|].
  cbn [digits_of].
  pose proof (Nat.div_mod_eq n 10) as Hdm.
  pose proof (Nat.mod_upper_bound n 10 ltac:(lia)) as Hmod.
  remember (n mod 10) as r eqn:Er. clear Er.
  destruct (n / 10) as [|q].
  - exists 1. rewrite read_digit_char by exact Hmod.
    f_equal; [f_equal|]; lia.
  - destruct (IH (S q) (String (ascii_of_nat (48 + r)) acc) a c) as [k Hk];
      [lia|].
    exists (S k). rewrite Hk, read_digit_char by exact Hmod.
    replace (10 ^ Z.of_nat (S k))%Z with (10 * 10 ^ Z.of_nat k)%Z
      by (rewrite Nat2Z.inj_succ, Z.pow_succ_r by lia; reflexivity).
    assert (Hz : Z.of_nat n = (10 * Z.of_nat (S q) + Z.of_nat r)%Z) by lia.
    rewrite Hz. f_equal; [ring|lia].
Qed.

Lemma index_to_string_injective (n m : nat) :
  index_to_string n = index_to_string m -> n = m.
Proof.
  unfold index_to_string. intros E.
  destruct (digits_of_read (S n) n "" 0 0 ltac:(lia)) as [k Hk].
  destruct (digits_of_read (S m) m "" 0 0 ltac:(lia)) as [k' Hk'].
  rewrite E, Hk' in Hk. cbn [read_digits] in Hk.
  injection Hk as Hv _. lia.
Qed.

Lemma synthetic_ids_from (v : variant) (data : list RawCandidate) :
  forall (k : nat) (s : string),
    In (Synthetic s) (map id (map_indexed (format v) k data)) ->
    exists j, k <= j /\ s = ("location_" ++ index_to_string j)%string.
Proof.
  induction data as [|item data IH]; intros k s H; [contradiction|].
  cbn [map_indexed map] in H. destruct H as [H|H].
  - unfold format in H. cbn [id] in H.
    destruct (raw_place_id item) as [n|]; [destruct (n =? 0)%Z|];
      try discriminate; injection H as <-; exists k; auto.
  - destruct (IH (S k) s H) as (j & Hj & ->). exists j. split; [lia|reflexivity].
Qed.

Lemma place_ids_from (v : variant) (data : list RawCandidate) :
  forall (k : nat) (n : Z),
    In (PlaceId n) (map id (map_indexed (format v) k data)) ->
    In n (place_ids data).
Proof.
  induction data as [|item data IH]; intros k n H; [contradiction|].
  cbn [map_indexed map] in H. unfold place_ids. cbn [flat_map].
  apply in_or_app. destruct H as [H|H].
  - left. unfold format in H. cbn [id] in H.
    destruct (raw_place_id item) as [p|]; [destruct (p =? 0)%Z|];
      try discriminate; injection H as <-; simpl; auto.
  - right. exact (IH (S k) n H).
Qed.

Lemma formatted_ids_unique (v : variant) (data : list RawCandidate) :
  forall k,
    NoDup (place_ids data) ->
    NoDup (map id (map_indexed (format v) k data)).
Proof.
  induction data as [|item data IH]; intros k Hnd; [constructor|].
  cbn [map_indexed map]. unfold place_ids in Hnd. cbn [flat_map] in Hnd.
  fold (place_ids data) in Hnd.
  assert (Hsyn : ~ In (Synthetic ("location_" ++ index_to_string k)%string)
                      (map id (map_indexed (format v) (S k) data))).
  { intros Hin. apply synthetic_ids_from in Hin.
    destruct Hin as (j & Hj & E). simpl in E. injection E as E.
    apply index_to_string_injective in E. lia. }
  constructor.
  - unfold format. cbn [id].
    destruct (raw_place_id item) as [n|]; [destruct (n =? 0)%Z|]; try exact Hsyn.
    intros Hin. apply place_ids_from in Hin.
    simpl in Hnd. inversion Hnd; subst. contradiction.
  - apply IH. eapply NoDup_app_remove_l. exact Hnd.
Qed.

End IdentifierFacts.

(** X7: the fallback identifier spells the index in decimal digits: reading
    the digits of [index_to_string n] back gives [n] and leaves nothing
    over, so different indices give different identifiers. *)
Theorem index_to_string_reads_back :
  forall n : nat,
    exists digits,
      JS.read_digits 0 0 (Normalizer.index_to_string n) =
      (Z.of_nat n, digits, "").
Proof.
  intros n. unfold Normalizer.index_to_string.
  destruct (digits_of_read (S n) n "" 0 0 ltac:(lia)) as [k Hk].
  exists k. rewrite Hk. reflexivity.
Qed.

(** X8: when the truthy place identifiers of a response are distinct, the
    identifiers of the Locations stored for it are distinct too: a fallback
    identifier [location_<index>] never equals another one nor a place
    identifier. *)
Theorem stored_ids_unique :
  forall (v : variant) (searchQuery : string)
         (data : list Normalizer.RawCandidate) (st : Widget.State),
    NoDup (Behaviour.place_ids data) ->
    NoDup (map Normalizer.id
             (Widget.suggestions
                (Widget.searchAddresses_resume v searchQuery (Widget.Json data) st))).
Proof.
  intros v searchQuery data st Hnd.
  destruct data as [|item data]; [constructor|].
  cbn [Widget.searchAddresses_resume List.length Nat.ltb Nat.leb
       Widget.suggestions].
  eapply Permutation_NoDup.
  - apply Permutation_map, Permutation_sym, sort_permutation.
  - now apply formatted_ids_unique.
Qed.

Lemma stored_ids_unique_witness :
  let data :=
    [Behaviour.with_place_id 7 Sample.springfield; Sample.sparta;
     Behaviour.with_place_id 9 Sample.nowhere; Sample.springfield] in
  Behaviour.place_ids data = [7%Z; 9%Z] /\
  map Normalizer.id (Normalizer.formattedSuggestions India data) =
    [Normalizer.PlaceId 7; Normalizer.Synthetic "location_1";
     Normalizer.PlaceId 9; Normalizer.Synthetic "location_3"] /\
  NoDup (map Normalizer.id
           (Widget.suggestions
              (Widget.searchAddresses_resume India "sp" (Widget.Json data)
                 Widget.initial_state))).
Proof.
  split; [reflexivity|]. split; [reflexivity|].
  apply (stored_ids_unique India "sp"
           [Behaviour.with_place_id 7 Sample.springfield; Sample.sparta;
            Behaviour.with_place_id 9 Sample.nowhere; Sample.springfield]
           Widget.initial_state).
  change (NoDup [7%Z; 9%Z]).
  constructor; [intros [H|[]]; discriminate H|].
  constructor; [intros []|constructor].
Defined.

(** ** The component over time *)

Section TimerRounds.
Import Debounce.
Context {Args St : Type}.
Variable func : Args -> St -> St.
Variable P : St -> Prop.
Hypothesis func_preserves : forall a s, P s -> P (func a s).

Lemma run_timers_preserves (rounds t : nat) :
  forall w : env Args * St, P (snd w) -> P (snd (run_timers func rounds t w)).
Proof.
  induction rounds as [|rounds IH]; intros [e s] H; [exact H|].
  cbn [run_timers fst]. destruct (next_due t e) as [tm|]; [|exact H].
  apply IH. unfold fire. cbn [snd] in *. now apply func_preserves.
Qed.

Lemma advance_preserves (t : nat) (w : env Args * St) :
  P (snd w) -> P (snd (advance func t w)).
Proof.
  intros H. unfold advance.
  pose proof (run_timers_preserves (List.length (pending (fst w))) t w H) as H'.
  destruct (run_timers func (List.length (pending (fst w))) t w) as [e s].
  exact H'.
Qed.

End TimerRounds.

Ltac handler_cases :=
  unfold Widget.handle, Widget.render, Widget.query_effect, Widget.settle,
    Widget.handleInputChange, Widget.handleSuggestionClick, Widget.clearInput,
    Widget.handleInputFocus, Widget.searchAddresses_resume;
  cbn [fst snd Widget.set_ui Widget.ui Widget.in_flight Widget.issued
       Widget.query Widget.suggestions Widget.loading Widget.selectedLocation
       Widget.showSuggestions Widget.error];
  repeat match goal with
         | |- context [if ?b then _ else _] => destruct b eqn:?
         | |- context [match ?x with _ => _ end] => destruct x eqn:?
         end;
  cbn [fst snd Widget.set_ui Widget.ui Widget.in_flight Widget.issued
       Widget.query Widget.suggestions Widget.loading Widget.selectedLocation
       Widget.showSuggestions Widget.error].

Section ReachableFacts.
Import JS Normalizer Ranker Widget Behaviour.
Variable v : variant.

(** What holds of the host at the start, and is kept by every handler, by
    every response and by every start of a search, holds in every reachable
    world. *)
Lemma reachable_host_invariant (P : Host -> Prop) :
  P (snd initial_world) ->
  (forall q h, P h -> P (searchAddresses_start q h)) ->
  (forall w ev, (forall t, ev <> Elapse t) -> P (snd w) -> P (snd (step v w ev))) ->
  forall w, reachable v w -> P (snd w).
Proof.
  intros Hinit Hstart Hstep w Hw.
  induction Hw as [|w ev Hw IH]; [exact Hinit|].
  destruct ev; try (apply Hstep; [discriminate|exact IH]).
  cbn [step]. now apply advance_preserves.
Qed.

Lemma executedFunction_one_timer (q : string) (e : Debounce.env string) :
  one_timer e -> one_timer (Debounce.executedFunction quiet_period q e).
Proof.
  intros H. rewrite executedFunction_replaces by exact H.
  right. eexists. split; reflexivity.
Qed.

Lemma advance_one_timer (t : nat) (e : Debounce.env string) (h : Host) :
  one_timer e ->
  one_timer (fst (Debounce.advance searchAddresses_start t (e, h))).
Proof.
  intros [H|(tm & H & Hid)].
  - rewrite advance_idle by exact H. left. reflexivity.
  - destruct (advance_single searchAddresses_start t e h tm H)
      as (_ & Hp & Hto & _).
    destruct (Debounce.due tm <=? t).
    + left. exact Hp.
    + right. exists tm. split; [exact Hp|]. now rewrite Hto.
Qed.

End ReachableFacts.

(** X9: however the user types, clicks and clears, and whenever timers fire
    and responses arrive, the component has at most one debounce timer
    pending, and it is the one whose id the debounce closure holds. *)
Theorem at_most_one_timer_pending :
  forall (v : variant) (w : Widget.World),
    Behaviour.reachable v w -> Behaviour.one_timer (fst w).
Proof.
  intros v w Hw. induction Hw as [|[e h] ev Hw IH].
  - left. reflexivity.
  - cbn [fst] in IH. destruct ev; cbn [Widget.step];
      try (unfold Widget.handle, Widget.render, Widget.query_effect;
           cbn [fst snd];
           repeat match goal with
                  | |- context [if ?b then _ else _] => destruct b
                  end;
           cbn [fst]; auto using executedFunction_one_timer).
    + now apply advance_one_timer.
    + unfold Widget.settle.
      destruct (nth_error (Widget.in_flight h) k); exact IH.
Qed.

Lemma at_most_one_timer_pending_witness :
  Behaviour.one_timer
    (fst (Widget.step India
            (Widget.step India Widget.initial_world (Widget.InputChange "sp"))
            (Widget.InputChange "spr"))).
Proof.
  apply (at_most_one_timer_pending India).
  apply Behaviour.reachable_step, Behaviour.reachable_step,
    Behaviour.reachable_initial.
Defined.

(** X10: the provider is never called with a query text shorter than two
    characters: in every reachable world every query issued so far has at
    least two characters. *)
Theorem issued_queries_have_two_characters :
  forall (v : variant) (w : Widget.World),
    Behaviour.reachable v w ->
    Forall (fun q => 2 <= String.length q) (Widget.issued (snd w)).
Proof.
  intros v.
  apply (reachable_host_invariant v
           (fun h => Forall (fun q => 2 <= String.length q) (Widget.issued h))).
  - constructor.
  - intros q h H. unfold Widget.searchAddresses_start.
    destruct (String.length q <? 2) eqn:Hq; [exact H|].
    cbn [Widget.issued]. apply Forall_app. split; [exact H|].
    apply Nat.ltb_ge in Hq. repeat constructor. exact Hq.
  - intros [e h] ev Hev H. cbn [snd] in H.
    destruct ev; cbn [Widget.step]; try (now handler_cases).
    exfalso. exact (Hev t eq_refl).
Qed.

Lemma issued_queries_have_two_characters_witness :
  Forall (fun q => 2 <= String.length q)
    (Widget.issued
       (snd (Widget.step India
               (Widget.step India Widget.initial_world (Widget.InputChange "sp"))
               (Widget.Elapse 400)))).
Proof.
  apply (issued_queries_have_two_characters India).
  apply Behaviour.reachable_step, Behaviour.reachable_step,
    Behaviour.reachable_initial.
Defined.

(** X11: the loading flag is only up while a request is in flight: in every
    reachable world, once no request awaits its response the flag is
    down. *)
Theorem loading_needs_request_in_flight :
  forall (v : variant) (w : Widget.World),
    Behaviour.reachable v w ->
    Widget.in_flight (snd w) = [] ->
    Widget.loading (Widget.ui (snd w)) = false.
Proof.
  intros v.
  apply (reachable_host_invariant v
           (fun h => Widget.in_flight h = [] ->
                     Widget.loading (Widget.ui h) = false)).
  - reflexivity.
  - intros q h H. unfold Widget.searchAddresses_start.
    destruct (String.length q <? 2); cbn; [exact H|].
    intros E. now apply app_eq_nil in E.
  - intros [e h] ev Hev H. cbn [snd] in H.
    destruct ev; cbn [Widget.step]; try (now handler_cases).
    exfalso. exact (Hev t eq_refl).
Qed.

Lemma loading_needs_request_in_flight_witness :
  Widget.loading
    (Widget.ui
       (snd (Widget.step India
               (Widget.step India
                  (Widget.step India Widget.initial_world
                     (Widget.InputChange "sp"))
                  (Widget.Elapse 400))
               (Widget.Settle 0 Widget.Rejected)))) = false.
Proof.
  apply (loading_needs_request_in_flight India).
  - apply Behaviour.reachable_step, Behaviour.reachable_step,
      Behaviour.reachable_step, Behaviour.reachable_initial.
  - reflexivity.
Defined.

Section StoredFacts.
Import JS Normalizer Ranker Widget Behaviour.
Variable v : variant.

Lemma map_indexed_formatted (data : list RawCandidate) :
  forall k,
    Forall (fun l => exists item index, l = format v item index)
      (map_indexed (format v) k data).
Proof.
  induction data as [|item data IH]; intros k; cbn [map_indexed]; constructor; eauto.
Qed.

Lemma stored_are_formatted (w : World) :
  reachable v w ->
  Forall (fun l => exists item index, l = format v item index)
    (suggestions (ui (snd w))).
Proof.
  revert w.
  apply (reachable_host_invariant v
           (fun h => Forall (fun l => exists item index, l = format v item index)
                       (suggestions (ui h)))).
  - constructor.
  - intros q h H. unfold searchAddresses_start.
    destruct (String.length q <? 2); cbn; [constructor|exact H].
  - intros [e h] ev Hev H. cbn [snd] in H.
    destruct ev; cbn [step]; try (handler_cases; solve [exact H|constructor]).
    + exfalso. exact (Hev t eq_refl).
    + handler_cases; try solve [exact H|constructor].
      rewrite Forall_forall. intros l Hl.
      apply (Permutation_in _ (sort_permutation _ _)) in Hl.
      revert l Hl. rewrite <- Forall_forall. apply map_indexed_formatted.
Qed.

End StoredFacts.

(** X13: timers and responses never touch what the user entered or chose:
    whatever fires or arrives, the query text and the selected Location stay
    as they are. *)
Theorem searches_keep_query_and_selection :
  forall (v : variant) (w : Widget.World),
    (forall t : nat,
        let w' := Widget.step v w (Widget.Elapse t) in
        Widget.query (Widget.ui (snd w')) = Widget.query (Widget.ui (snd w)) /\
        Widget.selectedLocation (Widget.ui (snd w')) =
          Widget.selectedLocation (Widget.ui (snd w))) /\
    (forall (k : nat) (r : Widget.response),
        let w' := Widget.step v w (Widget.Settle k r) in
        Widget.query (Widget.ui (snd w')) = Widget.query (Widget.ui (snd w)) /\
        Widget.selectedLocation (Widget.ui (snd w')) =
          Widget.selectedLocation (Widget.ui (snd w))).
Proof.
  intros v [e h]. split.
  - intros t. cbn [Widget.step snd].
    apply (advance_preserves Widget.searchAddresses_start
             (fun h' => Widget.query (Widget.ui h') = Widget.query (Widget.ui h) /\
                        Widget.selectedLocation (Widget.ui h') =
                          Widget.selectedLocation (Widget.ui h))).
    + intros q h' H. unfold Widget.searchAddresses_start.
      destruct (String.length q <? 2); exact H.
    + split; reflexivity.
  - intros k r. cbn [Widget.step]. handler_cases; split; reflexivity.
Qed.

(** X14: clearing the input does not cancel a search that the debouncer has
    scheduled: when the timer of a query of two characters or more is
    pending, the clear action empties the query text, and the provider is
    still called with that query when the timer is due. *)
Theorem clear_does_not_cancel_scheduled_search :
  forall (v : variant) (w : Widget.World) (tm : Debounce.timer string) (t : nat),
    Debounce.pending (fst w) = [tm] ->
    Debounce.due tm <= t ->
    2 <= String.length (Debounce.captured tm) ->
    let cleared := Widget.step v w Widget.ClearInput in
    let w' := Widget.step v cleared (Widget.Elapse t) in
    Widget.Idle (Widget.ui (snd cleared)) /\
    Widget.issued (snd cleared) = Widget.issued (snd w) /\
    Widget.issued (snd w') = Widget.issued (snd w) ++ [Debounce.captured tm] /\
    Widget.query (Widget.ui (snd w')) = "" /\
    Widget.loading (Widget.ui (snd w')) = true.
Proof.
  intros v [e h] tm t Hp Hdue Hlen cleared w'. cbn [fst] in Hp.
  assert (Hc : exists st,
             cleared = (e, Widget.set_ui st h) /\ Widget.Idle st).
  { unfold cleared. cbn [Widget.step]. unfold Widget.handle, Widget.render.
    cbn [fst snd Widget.set_ui Widget.ui Widget.clearInput Widget.query].
    destruct (String.eqb "" (Widget.query (Widget.ui h))).
    - eexists. split; [reflexivity|]. repeat split.
    - eexists. split; [reflexivity|]. repeat split. }
  destruct Hc as (st & Hc & Hidle).
  unfold w'. rewrite Hc. cbn [Widget.step snd Widget.set_ui Widget.ui Widget.issued].
  destruct (advance_single Widget.searchAddresses_start t e (Widget.set_ui st h)
              tm Hp) as (Hs & _).
  apply Nat.leb_le in Hdue. rewrite Hdue in Hs. rewrite Hs.
  unfold Widget.searchAddresses_start.
  apply Nat.ltb_ge in Hlen. rewrite Hlen.
  cbn [Widget.set_ui Widget.ui Widget.issued Widget.query Widget.loading].
  split; [exact Hidle|]. destruct Hidle as (Hq & _). repeat split; auto.
Qed.

Lemma clear_does_not_cancel_scheduled_search_witness :
  let w := Widget.step India Widget.initial_world (Widget.InputChange "spring") in
  let cleared := Widget.step India w Widget.ClearInput in
  let w' := Widget.step India cleared (Widget.Elapse 400) in
  Widget.Idle (Widget.ui (snd cleared)) /\
  Widget.issued (snd cleared) = [] /\
  Widget.issued (snd w') = ["spring"] /\
  Widget.query (Widget.ui (snd w')) = "" /\
  Widget.loading (Widget.ui (snd w')) = true.
Proof.
  apply (clear_does_not_cancel_scheduled_search India
           (Widget.step India Widget.initial_world (Widget.InputChange "spring"))
           {| Debounce.timer_id := 1; Debounce.due := 400;
              Debounce.captured := "spring" |} 400);
    [reflexivity|simpl; lia|simpl; lia].
Defined.

(** X15: clearing the input does not discard a request in flight either:
    when its response arrives with candidates after the clear action, the
    candidates are stored and the list is shown although the query text is
    empty. *)
Theorem late_response_fills_cleared_input :
  forall (v : variant) (w : Widget.World) (k : nat) (searchQuery : string)
         (item : Normalizer.RawCandidate) (data : list Normalizer.RawCandidate),
    nth_error (Widget.in_flight (snd w)) k = Some searchQuery ->
    let w' :=
      Widget.run v [Widget.ClearInput; Widget.Settle k (Widget.Json (item :: data))]
        w in
    Widget.query (Widget.ui (snd w')) = "" /\
    Widget.selectedLocation (Widget.ui (snd w')) = None /\
    Widget.showSuggestions (Widget.ui (snd w')) = true /\
    Widget.suggestions (Widget.ui (snd w')) =
      Ranker.rank v (Normalizer.formattedSuggestions v (item :: data)) searchQuery /\
    Widget.suggestions (Widget.ui (snd w')) <> [].
Proof.
  intros v [e h] k searchQuery item data Hk w'. cbn [snd] in Hk.
  assert (Hs : Widget.suggestions (Widget.ui (snd w')) =
               Ranker.rank v (Normalizer.formattedSuggestions v (item :: data))
                 searchQuery /\
               Widget.query (Widget.ui (snd w')) = "" /\
               Widget.selectedLocation (Widget.ui (snd w')) = None /\
               Widget.showSuggestions (Widget.ui (snd w')) = true).
  { unfold w', Widget.run. cbn [fold_left Widget.step].
    unfold Widget.handle, Widget.render, Widget.query_effect.
    cbn [fst snd Widget.set_ui Widget.ui Widget.clearInput Widget.query].
    destruct (String.eqb "" (Widget.query (Widget.ui h)));
      cbn -[Ranker.rank Normalizer.formattedSuggestions];
      rewrite Hk; cbn -[Ranker.rank Normalizer.formattedSuggestions];
      repeat split. }
  destruct Hs as (Hs & Hq & Hsel & Hshow). repeat split; auto.
  rewrite Hs. intros E. apply (f_equal (@List.length _)) in E.
  unfold Ranker.rank in E. rewrite sort_length in E.
  unfold Normalizer.formattedSuggestions in E.
  rewrite map_indexed_length in E. discriminate.
Qed.

Lemma late_response_fills_cleared_input_witness :
  let w :=
    Widget.run India [Widget.InputChange "spring"; Widget.Elapse 400]
      Widget.initial_world in
  let w' :=
    Widget.run India
      [Widget.ClearInput; Widget.Settle 0 (Widget.Json [Sample.springfield])] w in
  Widget.query (Widget.ui (snd w')) = "" /\
  Widget.selectedLocation (Widget.ui (snd w')) = None /\
  Widget.showSuggestions (Widget.ui (snd w')) = true /\
  Widget.suggestions (Widget.ui (snd w')) =
    Ranker.rank India
      (Normalizer.formattedSuggestions India [Sample.springfield]) "spring" /\
  Widget.suggestions (Widget.ui (snd w')) <> [].
Proof.
  apply (late_response_fills_cleared_input India
           (Widget.run India [Widget.InputChange "spring"; Widget.Elapse 400]
              Widget.initial_world)
           0 "spring" Sample.springfield []).
  reflexivity.
Defined.

(** X16: every stored candidate is a provider record put into the canonical
    shape: in every reachable world each Location of the candidate list is
    the result of [format] on some raw candidate at some index. *)
Theorem stored_candidates_are_formatted :
  forall (v : variant) (w : Widget.World),
    Behaviour.reachable v w ->
    Forall (fun l => exists item index, l = Normalizer.format v item index)
      (Widget.suggestions (Widget.ui (snd w))).
Proof. intros v w Hw. now apply stored_are_formatted. Qed.

Lemma stored_candidates_are_formatted_witness :
  Forall (fun l => exists item index, l = Normalizer.format India item index)
    (Widget.suggestions
       (Widget.ui
          (snd (Widget.step India
                  (Widget.step India
                     (Widget.step India Widget.initial_world
                        (Widget.InputChange "sp"))
                     (Widget.Elapse 400))
                  (Widget.Settle 0 (Widget.Json [Sample.sparta])))))).
Proof.
  apply (stored_candidates_are_formatted India).
  apply Behaviour.reachable_step, Behaviour.reachable_step,
    Behaviour.reachable_step, Behaviour.reachable_initial.
Defined.

(** X17: in the India variant every candidate that the component ever
    stores has a non-empty country. *)
Theorem india_stored_candidates_have_country :
  forall w : Widget.World,
    Behaviour.reachable India w ->
    Forall (fun l => JS.truthy (Normalizer.country (Normalizer.address l)) = true)
      (Widget.suggestions (Widget.ui (snd w))).
Proof.
  intros w Hw. apply stored_are_formatted in Hw.
  rewrite Forall_forall in *. intros l Hl.
  destruct (Hw l Hl) as (item & index & ->).
  cbn [Normalizer.format Normalizer.address Normalizer.country].
  destruct (Normalizer.raw_country (Normalizer.address_of item)) as [[|c cs]|];
    reflexivity.
Qed.

Lemma india_stored_candidates_have_country_witness :
  Forall (fun l => JS.truthy (Normalizer.country (Normalizer.address l)) = true)
    (Widget.suggestions
       (Widget.ui
          (snd (Widget.step India
                  (Widget.step India
                     (Widget.step India Widget.initial_world
                        (Widget.InputChange "sp"))
                     (Widget.Elapse 400))
                  (Widget.Settle 0 (Widget.Json [Sample.sparta])))))).
Proof.
  apply india_stored_candidates_have_country.
  apply Behaviour.reachable_step, Behaviour.reachable_step,
    Behaviour.reachable_step, Behaviour.reachable_initial.
Defined.

(** X18: every outcome of a request other than a non-empty array (no
    network, a status that is not ok, a body that is not JSON, an empty
    array) leaves no candidates, hides the list, takes the loading flag down
    and sets a message; the message for the empty array differs from the
    message for the failures. The query text and the selection stay. *)
Theorem unsuccessful_outcomes_leave_message :
  forall (v : variant) (searchQuery : string) (r : Widget.response)
         (st : Widget.State),
    (forall item data, r <> Widget.Json (item :: data)) ->
    let st' := Widget.searchAddresses_resume v searchQuery r st in
    Widget.suggestions st' = [] /\
    Widget.showSuggestions st' = false /\
    Widget.loading st' = false /\
    Widget.error st' =
      (match r with
       | Widget.Json _ => "No locations found. Try a different search term."
       | _ => "Failed to fetch locations. Please check your internet connection."
       end) /\
    Widget.query st' = Widget.query st /\
    Widget.selectedLocation st' = Widget.selectedLocation st.
Proof.
  intros v searchQuery r st Hr.
  destruct r as [| | |[|item data]];
    try (exfalso; exact (Hr item data eq_refl)); cbn; repeat split.
Qed.

Lemma unsuccessful_outcomes_leave_message_witness :
  let st' :=
    Widget.searchAddresses_resume Worldwide "zz" (Widget.NotOk 503)
      Widget.initial_state in
  Widget.suggestions st' = [] /\
  Widget.showSuggestions st' = false /\
  Widget.loading st' = false /\
  Widget.error st' =
    "Failed to fetch locations. Please check your internet connection." /\
  Widget.query st' = "" /\
  Widget.selectedLocation st' = None.
Proof.
  apply (unsuccessful_outcomes_leave_message Worldwide "zz" (Widget.NotOk 503)
           Widget.initial_state).
  discriminate.
Defined.

(** X19: a press of the mouse outside the input and outside the list hides
    the list and keeps the candidates, and a press inside either changes
    nothing; when the input is focused afterwards the list is rendered
    again exactly when there are candidates. *)
Theorem click_outside_hides_and_focus_reopens :
  forall st : Widget.State,
    Behaviour.dropdown_visible (Behaviour.handleClickOutside false false st) = false /\
    Widget.suggestions (Behaviour.handleClickOutside false false st) =
      Widget.suggestions st /\
    (forall in_list, Behaviour.handleClickOutside true in_list st = st) /\
    Behaviour.handleClickOutside false true st = st /\
    Behaviour.dropdown_visible
      (Widget.handleInputFocus (Behaviour.handleClickOutside false false st)) =
      (0 <? List.length (Widget.suggestions st)).
Proof.
  intros [q [|s ss] ld sel [|] err]; repeat split;
    try reflexivity; intros [|]; reflexivity.
Qed.

(** ** The debouncer, spaced calls *)

Section SpacedCalls.
Import Debounce Behaviour.
Context {Args : Type}.

Lemma spaced_calls_run (wait : nat) (cs : list (nat * Args)) :
  forall (e : env Args) (log : list Args) (t : nat) (a : Args) (id : nat),
    pending e = [{| timer_id := id; due := t + wait; captured := a |}] ->
    timeout e = Some id ->
    now e = t ->
    spaced wait t cs ->
    let w' := calls record_call wait cs (e, log) in
    let c := last cs (t, a) in
    (exists id',
        pending (fst w') =
          [{| timer_id := id'; due := fst c + wait; captured := snd c |}]) /\
    snd w' ++ [snd c] = log ++ a :: map snd cs.
Proof.
  induction cs as [|[t1 a1] cs IH]; intros e log t a id Hp Ht Hn Hs.
  - cbn. split; eauto.
  - cbn [spaced fst] in Hs. destruct Hs as (Hle & Hs).
    destruct (advance_single record_call t1 e log _ Hp)
      as (Hlog & Hpend & Hto & Hid & Hnow).
    cbn [due captured] in *.
    destruct (advance record_call t1 (e, log)) as [e1 log1] eqn:Ea.
    cbn [fst snd] in *.
    assert (Hd : (t + wait <=? t1) = true) by (apply Nat.leb_le; lia).
    rewrite Hd in *. subst log1.
    assert (Hcall : call record_call wait (e, log) (t1, a1) =
                    (executedFunction wait a1 e1, record_call a log))
      by (unfold call; cbn [fst snd]; now rewrite Ea).
    unfold calls. cbn [fold_left]. rewrite Hcall.
    fold (calls record_call wait cs).
    rewrite (executedFunction_replaces wait a1 e1) by (left; exact Hpend).
    replace (now e1) with t1 by lia.
    set (e2 := {| now := t1; next_id := S (next_id e1);
                  pending := [{| timer_id := next_id e1; due := t1 + wait;
                                 captured := a1 |}];
                  timeout := Some (next_id e1) |}).
    specialize (IH e2 (record_call a log) t1 a1 (next_id e1)
                  eq_refl eq_refl eq_refl Hs).
    cbv zeta in IH |- *.
    rewrite last_cons. destruct IH as [IHp IHlog]. split; [exact IHp|].
    unfold calls in IHlog. rewrite IHlog. unfold record_call. cbn [map snd].
    now rewrite <- app_assoc.
Qed.

End SpacedCalls.

(** X20: the debouncer only swallows calls that come in rapid succession:
    when every call comes at least the quiet period of 400 after the one
    before it, the wrapped operation runs once for every call, in the order
    of the calls and with the arguments of each. *)
Theorem debounce_runs_every_spaced_call :
  forall (Args : Type) (first : nat * Args) (more : list (nat * Args)) (t : nat),
    Behaviour.spaced Widget.quiet_period (fst first) more ->
    fst (last more first) + Widget.quiet_period <= t ->
    snd (Debounce.advance Debounce.record_call t
           (Debounce.calls Debounce.record_call Widget.quiet_period
              (first :: more) (Debounce.initial, []))) =
    map snd (first :: more).
Proof.
  intros Args [t0 a0] more t Hspaced Ht. cbn [fst] in Hspaced.
  pose (e1 := {| Debounce.now := t0; Debounce.next_id := 2;
                 Debounce.pending :=
                   [{| Debounce.timer_id := 1;
                       Debounce.due := t0 + Widget.quiet_period;
                       Debounce.captured := a0 |}];
                 Debounce.timeout := Some 1 |}).
  assert (Hfirst :
    Debounce.call Debounce.record_call Widget.quiet_period
      (Debounce.initial, []) (t0, a0) = (e1, @nil Args)).
  { unfold Debounce.call. cbn [fst snd].
    rewrite advance_idle by reflexivity.
    rewrite executedFunction_replaces by (left; reflexivity).
    reflexivity. }
  assert (Hw :
    Debounce.calls Debounce.record_call Widget.quiet_period ((t0, a0) :: more)
      (Debounce.initial, []) =
    Debounce.calls Debounce.record_call Widget.quiet_period more (e1, [])).
  { unfold Debounce.calls. cbn [fold_left]. now rewrite Hfirst. }
  rewrite Hw.
  destruct (spaced_calls_run Widget.quiet_period more e1 (@nil Args) t0 a0 1
              eq_refl eq_refl eq_refl Hspaced) as ((id & Hpending) & Hlog).
  destruct (Debounce.calls Debounce.record_call Widget.quiet_period more
              (e1, [])) as [e log].
  cbn [fst snd] in *.
  destruct (advance_single Debounce.record_call t e log _ Hpending) as [Hs _].
  rewrite Hs. cbn [Debounce.due Debounce.captured].
  apply Nat.leb_le in Ht. rewrite Ht. exact Hlog.
Qed.

Lemma debounce_runs_every_spaced_call_witness :
  snd (Debounce.advance Debounce.record_call 1300
         (Debounce.calls Debounce.record_call 400
            [(0, "s"); (400, "sp"); (900, "spr")] (Debounce.initial, []))) =
  ["s"; "sp"; "spr"].
Proof.
  apply (debounce_runs_every_spaced_call string (0, "s")
           [(400, "sp"); (900, "spr")] 1300).
  - cbn. unfold Widget.quiet_period. lia.
  - cbn. unfold Widget.quiet_period. lia.
Defined.

(** ** Typing, the debouncer and the search together *)

Section TypingFacts.
Import JS Normalizer Widget.

Lemma two_characters_truthy (s : string) :
  2 <= String.length s -> truthy_string s = true.
Proof. destruct s; simpl; [lia|reflexivity]. Qed.

Lemma handleInputChange_query (value : string) (st : State) :
  query (handleInputChange value st) = value.
Proof. unfold handleInputChange. now destruct (String.eqb value ""). Qed.

Lemma typing_schedules (v : variant) (e : Debounce.env string) (h : Host)
    (value : string) :
  value <> query (ui h) ->
  truthy_string (trim value) = true ->
  step v (e, h) (InputChange value) =
    (Debounce.executedFunction quiet_period (trim value) e,
     set_ui (handleInputChange value (ui h)) h).
Proof.
  intros Hneq Htrim. cbn [step]. unfold handle, render. cbn [fst snd].
  set (st1 := handleInputChange value (ui h)).
  assert (Hq : query st1 = value) by apply handleInputChange_query.
  set (h1 := set_ui st1 h). change (ui h1) with st1. rewrite Hq.
  apply String.eqb_neq in Hneq. rewrite Hneq.
  unfold query_effect. change (ui h1) with st1. now rewrite Hq, Htrim.
Qed.

Lemma handleInputChange_keeps (value : string) (h : Host) :
  issued (set_ui (handleInputChange value (ui h)) h) = issued h /\
  in_flight (set_ui (handleInputChange value (ui h)) h) = in_flight h.
Proof. split; reflexivity. Qed.

End TypingFacts.

(** X21: a query text of two characters or more after trimming is searched
    once the quiet period has passed: from a world without a pending timer,
    typing a new text and waiting 400 time units makes one provider call,
    with the trimmed text, puts the loading flag up and clears the error. *)
Theorem typed_query_is_searched_after_quiet_period :
  forall (v : variant) (w : Widget.World) (value : string) (t : nat),
    Debounce.pending (fst w) = [] ->
    value <> Widget.query (Widget.ui (snd w)) ->
    2 <= String.length (JS.trim value) ->
    Debounce.now (fst w) + Widget.quiet_period <= t ->
    let typed := Widget.step v w (Widget.InputChange value) in
    let w' := Widget.step v typed (Widget.Elapse t) in
    Widget.issued (snd typed) = Widget.issued (snd w) /\
    Widget.issued (snd w') = Widget.issued (snd w) ++ [JS.trim value] /\
    Widget.in_flight (snd w') = Widget.in_flight (snd w) ++ [JS.trim value] /\
    Widget.loading (Widget.ui (snd w')) = true /\
    Widget.error (Widget.ui (snd w')) = "" /\
    Widget.query (Widget.ui (snd w')) = value /\
    Debounce.pending (fst w') = [].
Proof.
  intros v [e h] value t Hidle Hneq Hlen Ht typed w'. cbn [fst snd] in *.
  unfold w', typed.
  rewrite (typing_schedules v e h value Hneq (two_characters_truthy _ Hlen)).
  rewrite executedFunction_replaces by (left; exact Hidle).
  cbn [snd]. split; [reflexivity|].
  match goal with
  | |- context [Widget.step v (?e', ?h') (Widget.Elapse t)] =>
      destruct (advance_single Widget.searchAddresses_start t e' h'
                  {| Debounce.timer_id := Debounce.next_id e;
                     Debounce.due := Debounce.now e + Widget.quiet_period;
                     Debounce.captured := JS.trim value |} eq_refl)
        as (Hs & Hp & _)
  end.
  cbn [Debounce.due Debounce.captured] in Hs, Hp.
  apply Nat.leb_le in Ht. rewrite Ht in Hs, Hp.
  cbn [Widget.step]. rewrite Hs, Hp.
  unfold Widget.searchAddresses_start.
  apply Nat.ltb_ge in Hlen. rewrite Hlen.
  cbn [Widget.set_ui Widget.ui Widget.issued Widget.in_flight Widget.loading
       Widget.error Widget.query].
  rewrite handleInputChange_query. repeat split.
Qed.

Lemma typed_query_is_searched_after_quiet_period_witness :
  let typed := Widget.step India Widget.initial_world (Widget.InputChange " delhi ") in
  let w' := Widget.step India typed (Widget.Elapse 400) in
  Widget.issued (snd typed) = [] /\
  Widget.issued (snd w') = ["delhi"] /\
  Widget.in_flight (snd w') = ["delhi"] /\
  Widget.loading (Widget.ui (snd w')) = true /\
  Widget.error (Widget.ui (snd w')) = "" /\
  Widget.query (Widget.ui (snd w')) = " delhi " /\
  Debounce.pending (fst w') = [].
Proof.
  apply (typed_query_is_searched_after_quiet_period India Widget.initial_world
           " delhi " 400);
    [reflexivity|discriminate|vm_compute; lia|vm_compute; lia].
Defined.

(** X22: of two texts typed in rapid succession only the second is
    searched: when the second text is typed before the timer of the first
    is due, the first is never sent to the provider, and the second is sent
    once its own quiet period has passed. *)
Theorem rapid_typing_searches_last_text_only :
  forall (v : variant) (w : Widget.World) (first second : string) (t1 t2 : nat),
    Debounce.pending (fst w) = [] ->
    first <> Widget.query (Widget.ui (snd w)) ->
    second <> first ->
    JS.truthy_string (JS.trim first) = true ->
    2 <= String.length (JS.trim second) ->
    t1 < Debounce.now (fst w) + Widget.quiet_period ->
    Nat.max (Debounce.now (fst w)) t1 + Widget.quiet_period <= t2 ->
    Widget.issued
      (snd (Widget.run v
              [Widget.InputChange first; Widget.Elapse t1;
               Widget.InputChange second; Widget.Elapse t2] w)) =
    Widget.issued (snd w) ++ [JS.trim second].
Proof.
  intros v [e h] first second t1 t2 Hidle Hneq1 Hneq2 Htr1 Hlen2 Ht1 Ht2.
  cbn [fst snd] in *. unfold Widget.run. cbn [fold_left].
  rewrite (typing_schedules v e h first Hneq1 Htr1).
  rewrite executedFunction_replaces by (left; exact Hidle).
  set (tm1 := {| Debounce.timer_id := Debounce.next_id e;
                 Debounce.due := Debounce.now e + Widget.quiet_period;
                 Debounce.captured := JS.trim first |}).
  set (h1 := Widget.set_ui (Widget.handleInputChange first (Widget.ui h)) h).
  match goal with
  | |- context [Widget.step v (?e', h1) (Widget.Elapse t1)] =>
      set (e1 := e');
      destruct (advance_single Widget.searchAddresses_start t1 e1 h1 tm1 eq_refl)
        as (Hs & Hp & Hto & _ & Hnow)
  end.
  change (Widget.step v (e1, h1) (Widget.Elapse t1))
    with (Debounce.advance Widget.searchAddresses_start t1 (e1, h1)).
  destruct (Debounce.advance Widget.searchAddresses_start t1 (e1, h1))
    as [e2 h2] eqn:Ea.
  cbn [fst snd] in Hs, Hp, Hto, Hnow.
  assert (Hnd : (Debounce.due tm1 <=? t1) = false)
    by (apply Nat.leb_gt; unfold tm1; cbn [Debounce.due]; lia).
  rewrite Hnd in Hs, Hp, Hnow. subst h2.
  assert (Hq1 : second <> Widget.query (Widget.ui h1)).
  { unfold h1. cbn [Widget.set_ui Widget.ui].
    now rewrite handleInputChange_query. }
  rewrite (typing_schedules v e2 h1 second Hq1 (two_characters_truthy _ Hlen2)).
  rewrite executedFunction_replaces
    by (right; exists tm1; split; [exact Hp|rewrite Hto; reflexivity]).
  set (h3 := Widget.set_ui (Widget.handleInputChange second (Widget.ui h1)) h1).
  cbn [Widget.step].
  match goal with
  | |- context [Debounce.advance _ t2 (?e', h3)] =>
      destruct (advance_single Widget.searchAddresses_start t2 e' h3
                  {| Debounce.timer_id := Debounce.next_id e2;
                     Debounce.due := Debounce.now e2 + Widget.quiet_period;
                     Debounce.captured := JS.trim second |} eq_refl)
        as (Hs3 & _)
  end.
  rewrite Hs3. cbn [Debounce.due Debounce.captured].
  replace (Debounce.now e2 + Widget.quiet_period <=? t2) with true
    by (symmetry; apply Nat.leb_le; rewrite Hnow; unfold e1;
        cbn [Debounce.now]; lia).
  unfold Widget.searchAddresses_start.
  apply Nat.ltb_ge in Hlen2. rewrite Hlen2. reflexivity.
Qed.

Lemma rapid_typing_searches_last_text_only_witness :
  Widget.issued
    (snd (Widget.run India
            [Widget.InputChange "de"; Widget.Elapse 300;
             Widget.InputChange "delhi"; Widget.Elapse 700]
            Widget.initial_world)) = ["delhi"].
Proof.
  apply (rapid_typing_searches_last_text_only India Widget.initial_world
           "de" "delhi" 300 700);
    try reflexivity; try discriminate; vm_compute; lia.
Defined.
